(** * 2048_game.c: a shallow embedding of the game engine and its session loop

    The C program keeps the whole game in one [struct game]: two [int]
    counters and a 4x4 array of [int] tile ranks.  The embedding follows the
    C text function by function:

    - [int] values are [Z] with the 32-bit two's-complement wrap-around
      written out ([wrap]); loop indices stay below [NROWS * NCOLS] and are
      [nat];
    - [tile board[NROWS][NCOLS]] is a list of rows, read with [!!!] and
      written with [<[ _ := _ ]>];
    - [for] loops are iterated state transformers ([for_range], and
      [for_return] for the loop of [place_tile] that returns from its body);
    - [random()] and [getch()] are streams consumed one draw at a time, the
      playback file is the string still to be read. *)

From Stdlib Require Import ZArith List Bool Ascii String Lia.
From stdpp Require Import base list.
Import ListNotations.

Local Open Scope Z_scope.

(** * The program *)

(** ** Machine integers *)

Definition int_min : Z := - 2 ^ 31.
Definition int_max : Z := 2 ^ 31 - 1.

(** Reduction of a mathematical integer to the value an [int] holds. *)
Definition wrap (z : Z) : Z := (z + 2 ^ 31) mod 2 ^ 32 - 2 ^ 31.

(** [in_int z]: [z] is representable as an [int]. *)
Definition in_int (z : Z) : Prop := int_min <= z <= int_max.

(** [x << n] on [int].  C defines it for [0 <= n < 32] when the result is
    representable; elsewhere the model keeps the wrapped shift. *)
Definition shl (x n : Z) : Z := wrap (Z.shiftl x n).

(** A C truth value. *)
Definition of_bool (b : bool) : Z := if b then 1 else 0.

(** ** Loops *)

(** [for_from i n body s]: [n] iterations of [body], the index counting up
    from [i]. *)
Fixpoint for_from {S : Type} (i n : nat) (body : nat -> S -> S) (s : S) : S :=
  match n with
  | O => s
  | Datatypes.S n' => for_from (Datatypes.S i) n' body (body i s)
  end.

(** [for (i = lo; i < hi; i++) body]. *)
Definition for_range {S : Type} (lo hi : nat) (body : nat -> S -> S) (s : S) : S :=
  for_from lo (hi - lo) body s.

(** The same loop when the body may [return]: [inr r] leaves the loop with
    [r], [inl s] goes on with state [s]. *)
Fixpoint for_return_from {S R : Type} (i n : nat) (body : nat -> S -> S + R) (s : S)
  : S + R :=
  match n with
  | O => inl s
  | Datatypes.S n' =>
      match body i s with
      | inl s' => for_return_from (Datatypes.S i) n' body s'
      | inr r => inr r
      end
  end.

Definition for_return {S R : Type} (lo hi : nat) (body : nat -> S -> S + R) (s : S)
  : S + R :=
  for_return_from lo (hi - lo) body s.

(** ** The game state *)

Definition NROWS : nat := 4.
Definition NCOLS : nat := NROWS.

(** [typedef int tile;] *)
Definition tile : Type := Z.

(** [struct game { int turns, score; tile board[NROWS][NCOLS]; }] *)
Record game : Type := Game {
  turns : Z;
  score : Z;
  board : list (list tile)
}.

Definition set_turns (g : game) (t : Z) : game :=
  {| turns := t; score := score g; board := board g |}.

Definition set_score (g : game) (s : Z) : game :=
  {| turns := turns g; score := s; board := board g |}.

Definition set_board (g : game) (b : list (list tile)) : game :=
  {| turns := turns g; score := score g; board := b |}.

(** [b[r][c]] *)
Definition cell (b : list (list tile)) (r c : nat) : tile := (b !!! r) !!! c.

(** [b[r][c] = v] *)
Definition set_cell (b : list (list tile)) (r c : nat) (v : tile) : list (list tile) :=
  <[r := <[c := v]> (b !!! r)]> b.

(** The C type fixes the shape of the array; on lists it is a predicate. *)
Definition wf_row (row : list tile) : Prop := length row = NCOLS.

Definition wf_board (b : list (list tile)) : Prop :=
  length b = NROWS /\ Forall wf_row b.

(** [struct game game = {0};] *)
Definition game_zero : game :=
  {| turns := 0; score := 0; board := replicate NROWS (replicate NCOLS 0) |}.

(** ** Rows *)

(** [deflate_left(row)]: the new contents of [row] and the returned flag.
    The loop state is [(buf, out, did_deflate)], [out] being the offset of
    the pointer into [buf]. *)
Definition deflate_left (row : list tile) : list tile * Z :=
  let '(buf, _, did_deflate) :=
    for_range 0 NCOLS
      (fun in_ '(buf, out, did_deflate) =>
         if negb (row !!! in_ =? 0) then
           let buf := <[out := row !!! in_]> buf in
           (buf, Datatypes.S out,
            Z.lor did_deflate (of_bool (negb (buf !!! in_ =? row !!! in_))))
         else (buf, out, did_deflate))
      (replicate NCOLS 0, O, 0) in
  (buf, did_deflate).

(** [combine_left(game, row)]: the game with its score updated, the new
    contents of [row], and the returned flag.  [row] points into
    [game->board], which the function reaches only through [row]; the caller
    stores the contents back (see [move_left]). *)
Definition combine_left (g : game) (row : list tile) : game * list tile * Z :=
  for_range 1 NCOLS
    (fun c '(g, row, did_combine) =>
       if negb (row !!! c =? 0) && (row !!! (c - 1)%nat =? row !!! c) then
         let row := <[(c - 1)%nat := wrap (row !!! (c - 1)%nat + 1)]> row in
         let row := <[c := 0]> row in
         let g := set_score g (wrap (score g + shl 1 (wrap (row !!! (c - 1)%nat - 1)))) in
         (g, row, 1)
       else (g, row, did_combine))
    (g, row, 0).

(** ** Rotation and the four moves *)

Definition rotate_clockwise (g : game) : game :=
  let buf := board g in
  for_range 0 NROWS
    (fun r g =>
       for_range 0 NCOLS
         (fun c g =>
            set_board g (set_cell (board g) r c (cell buf (NCOLS - c - 1) r)))
         g)
    g.

(** The body of the loop of [move_left]; [row] is [&game->board[r][0]], so
    every call on [row] is followed by the store of its new contents. *)
Definition move_left_row (r : nat) (st : game * Z) : game * Z :=
  let '(g, ret) := st in
  let '(row, d) := deflate_left (board g !!! r) in
  let g := set_board g (<[r := row]> (board g)) in
  let ret := Z.lor ret d in
  let '(g, row, d) := combine_left g (board g !!! r) in
  let g := set_board g (<[r := row]> (board g)) in
  let ret := Z.lor ret d in
  let '(row, d) := deflate_left (board g !!! r) in
  let g := set_board g (<[r := row]> (board g)) in
  let ret := Z.lor ret d in
  (g, ret).

Definition move_left_rows (g : game) : game * Z :=
  for_range 0 NROWS move_left_row (g, 0).

Definition move_left (g : game) : game :=
  let '(g, ret) := move_left_rows g in
  set_turns g (wrap (turns g + ret)).

Definition move_right (g : game) : game :=
  rotate_clockwise (rotate_clockwise (move_left (rotate_clockwise (rotate_clockwise g)))).

Definition move_up (g : game) : game :=
  rotate_clockwise (move_left (rotate_clockwise (rotate_clockwise (rotate_clockwise g)))).

Definition move_down (g : game) : game :=
  rotate_clockwise (rotate_clockwise (rotate_clockwise (move_left (rotate_clockwise g)))).

(** [lose_game(test_game)]: the argument is a copy, the caller's game is
    untouched. *)
Definition lose_game (test_game : game) : Z :=
  let start_turns := turns test_game in
  let test_game := move_left test_game in
  let test_game := move_up test_game in
  let test_game := move_down test_game in
  let test_game := move_right test_game in
  of_bool (turns test_game =? start_turns).

(** ** Spawning a tile *)

(** The results of the successive [random()] calls.  The C library returns a
    [long] between 0 and 2^31 - 1, whatever the stream holds. *)
Definition rng : Type := nat -> nat.

Definition random (rs : rng) : Z * rng :=
  (Z.of_nat (rs O) mod 2 ^ 31, fun n => rs (Datatypes.S n)).

(** How a call of [place_tile] ends: with a [return], or in [assert(0)]. *)
Inductive outcome : Type :=
  | Returned (code : Z)
  | AssertFailed.

(** [(tile * )game->board]: the rows one after the other. *)
Definition lboard (g : game) : list tile := mjoin (board g).

(** A store through [lboard]. *)
Definition set_lboard (g : game) (i : nat) (v : tile) : game :=
  set_board g (reshape (replicate NROWS NCOLS) (<[i := v]> (lboard g))).

(** [place_tile(game)].  [num_zeros] counts at most [NROWS * NCOLS] cells
    and cannot overflow.  The second loop carries [loc]; [!(loc--)] is
    evaluated only on an empty cell, and decrements [loc] there (the value
    left in [loc] when the cell is found is never read). *)
Definition place_tile (g : game) (rs : rng) : outcome * game * rng :=
  let num_zeros :=
    for_range 0 (NROWS * NCOLS)
      (fun i num_zeros => num_zeros + (if lboard g !!! i =? 0 then 1 else 0)) 0 in
  if num_zeros =? 0 then (Returned (-1), g, rs)
  else
    let '(x, rs) := random rs in
    let loc := wrap (Z.rem x num_zeros) in
    match
      for_return 0 (NROWS * NCOLS)
        (fun i loc =>
           if lboard g !!! i =? 0 then
             if loc =? 0 then
               let '(y, rs) := random rs in
               inr (set_lboard g i (if negb (Z.rem y 10 =? 0) then 1 else 2), rs)
             else inl (wrap (loc - 1))
           else inl loc)
        loc
    with
    | inr (g, rs) => (Returned 0, g, rs)
    | inl _ => (AssertFailed, g, rs)
    end.

(** What [print_tile] writes in a cell: the number [1 << tile], or a dot
    ([None]) for an empty cell. *)
Definition print_tile (t : tile) : option Z :=
  if negb (t =? 0) then Some (shl 1 t) else None.

(** ** Input and the replay files *)

Definition chr (c : ascii) : Z := Z.of_N (N_of_ascii c).
Arguments chr c%_char.

Definition newline : ascii := "010"%char.
Definition tab : ascii := "009"%char.

(** Key codes of [curses.h] (ncurses); all lie above every [char]. *)
Definition KEY_DOWN : Z := 258.
Definition KEY_UP : Z := 259.
Definition KEY_LEFT : Z := 260.
Definition KEY_RIGHT : Z := 261.

(** The session: the game of [main], the random stream, and the three
    channels [playfile], [recfile] and the keyboard.  A file that is not
    open ([NULL]) is [None]; [playfile] holds what is still to be read,
    [recfile] the lines written so far, each a key and a score. *)
Record session : Type := Session {
  the_game : game;
  rand : rng;
  playfile : option string;
  recfile : option (list (Z * Z));
  keyboard : nat -> Z
}.

Definition with_game (s : session) (g : game) (rs : rng) : session :=
  {| the_game := g; rand := rs; playfile := playfile s; recfile := recfile s;
     keyboard := keyboard s |}.

(** The first line of a non-empty file, newline included, and the rest. *)
Fixpoint split_line (f : string) : string * string :=
  match f with
  | EmptyString => (EmptyString, EmptyString)
  | String c f' =>
      if Ascii.eqb c newline then (String c EmptyString, f')
      else let '(l, rest) := split_line f' in (String c l, rest)
  end.

(** [getline(&line, &len, playfile)]: the returned count (-1 at end of
    file), the line, and the rest of the file. *)
Definition getline (f : string) : Z * string * string :=
  match f with
  | EmptyString => (-1, EmptyString, EmptyString)
  | _ => let '(l, rest) := split_line f in (Z.of_nat (String.length l), l, rest)
  end.

(** [strspn(line, " \t")] *)
Fixpoint strspn_blank (line : string) : nat :=
  match line with
  | String c line' =>
      if Ascii.eqb c " "%char || Ascii.eqb c tab then Datatypes.S (strspn_blank line')
      else O
  | EmptyString => O
  end.

(** [line[k]], the terminating NUL included.  The byte is taken unsigned;
    where [char] is signed a byte above 127 reads as a negative [int], and
    no key of [main] lies in either range. *)
Definition char_at (line : string) (k : nat) : Z :=
  match String.get k line with
  | Some c => chr c
  | None => 0
  end.

(** [get_input()] *)
Definition get_input (s : session) : Z * session :=
  match playfile s with
  | Some f =>
      let '(n, line, rest) := getline f in
      let ret := if 0 <? n then char_at line (strspn_blank line) else chr "q" in
      (ret,
       {| the_game := the_game s; rand := rand s; playfile := Some rest;
          recfile := recfile s; keyboard := keyboard s |})
  | None =>
      (keyboard s O,
       {| the_game := the_game s; rand := rand s; playfile := None;
          recfile := recfile s; keyboard := fun n => keyboard s (Datatypes.S n) |})
  end.

(** [record(key, game)]: [key] is passed as a [char] and written with [%c]. *)
Definition record (key : Z) (s : session) : session :=
  match recfile s with
  | Some lines =>
      {| the_game := the_game s; rand := rand s; playfile := playfile s;
         recfile := Some (lines ++ [(key mod 256, score (the_game s))]);
         keyboard := keyboard s |}
  | None => s
  end.

(** ** The session loop of [main] *)

(** Where one pass through [while (1)] leaves the program: back at the top
    of the loop, at [lose:], at [end:], or aborted by a failed assertion. *)
Inductive status : Type := Playing | Lost | Quit | Aborted.

(** The two [place_tile] calls before the loop; [main] does not look at
    what they return. *)
Definition main_seed (s : session) : status * session :=
  match place_tile (the_game s) (rand s) with
  | (AssertFailed, _, _) => (Aborted, s)
  | (Returned _, g, rs) =>
      let s := with_game s g rs in
      match place_tile (the_game s) (rand s) with
      | (AssertFailed, _, _) => (Aborted, s)
      | (Returned _, g, rs) => (Playing, with_game s g rs)
      end
  end.

(** [if (last_turn != game.turns) { place_tile(&game); record(key, &game); }] *)
Definition main_spawn (last_turn key : Z) (s : session) : status * session :=
  if negb (last_turn =? turns (the_game s)) then
    match place_tile (the_game s) (rand s) with
    | (AssertFailed, _, _) => (Aborted, s)
    | (Returned _, g, rs) => (Playing, record key (with_game s g rs))
    end
  else (Playing, s).

(** One pass through the body of [while (1)]. *)
Definition main_iter (s : session) : status * session :=
  if negb (lose_game (the_game s) =? 0) then (Lost, s)
  else
    let last_turn := turns (the_game s) in
    let '(key, s) := get_input s in
    if (key =? chr "a") || (key =? KEY_LEFT) then
      main_spawn last_turn key (with_game s (move_left (the_game s)) (rand s))
    else if (key =? chr "s") || (key =? KEY_DOWN) then
      main_spawn last_turn key (with_game s (move_down (the_game s)) (rand s))
    else if (key =? chr "w") || (key =? KEY_UP) then
      main_spawn last_turn key (with_game s (move_up (the_game s)) (rand s))
    else if (key =? chr "d") || (key =? KEY_RIGHT) then
      main_spawn last_turn key (with_game s (move_right (the_game s)) (rand s))
    else if key =? chr "q" then (Quit, s)
    else main_spawn last_turn key s.

(** The loop itself, for at most [fuel] passes. *)
Fixpoint main_loop (fuel : nat) (s : session) : status * session :=
  match fuel with
  | O => (Playing, s)
  | Datatypes.S fuel' =>
      match main_iter s with
      | (Playing, s') => main_loop fuel' s'
      | stop => stop
      end
  end.

(** * Definitions for the statements *)

(** ** Views of the program *)

(** [combine_left] reaches the game only through its score: the same loop
    on the score alone. *)
Definition combine_cells (s : Z) (row : list tile) : Z * list tile * Z :=
  for_range 1 NCOLS
    (fun c '(s, row, did_combine) =>
       if negb (row !!! c =? 0) && (row !!! (c - 1)%nat =? row !!! c) then
         let row := <[(c - 1)%nat := wrap (row !!! (c - 1)%nat + 1)]> row in
         let row := <[c := 0]> row in
         (wrap (s + shl 1 (wrap (row !!! (c - 1)%nat - 1))), row, 1)
       else (s, row, did_combine))
    (s, row, 0).

(** One row of [move_left]: deflate, combine, deflate, the score [s] and the
    flag [ret] threaded through. *)
Definition row_pass (s ret : Z) (row : list tile) : Z * Z * list tile :=
  let '(row, d) := deflate_left row in
  let ret := Z.lor ret d in
  let '(s, row, d) := combine_cells s row in
  let ret := Z.lor ret d in
  let '(row, d) := deflate_left row in
  let ret := Z.lor ret d in
  (s, ret, row).

(** A board with an empty cell. *)
Definition has_empty (b : list (list tile)) : Prop := In 0 (mjoin b).

(** The rotation of the array alone. *)
Definition rotate_board (b : list (list tile)) : list (list tile) :=
  board (rotate_clockwise {| turns := 0; score := 0; board := b |}).

Fixpoint rotate_times (k : nat) (b : list (list tile)) : list (list tile) :=
  match k with
  | O => b
  | Datatypes.S k' => rotate_board (rotate_times k' b)
  end.

(** [k] calls of [rotate_clockwise] in a row. *)
Fixpoint rotate_n (k : nat) (g : game) : game :=
  match k with
  | O => g
  | Datatypes.S k' => rotate_clockwise (rotate_n k' g)
  end.

(** ** The four moves as one *)

Inductive direction : Type := Left | Right | Up | Down.

Definition move (d : direction) (g : game) : game :=
  match d with
  | Left => move_left g
  | Right => move_right g
  | Up => move_up g
  | Down => move_down g
  end.

(** The game on which [move_left] runs when the move is [d]. *)
Definition turned (d : direction) (g : game) : game :=
  match d with
  | Left => g
  | Right => rotate_clockwise (rotate_clockwise g)
  | Up => rotate_clockwise (rotate_clockwise (rotate_clockwise g))
  | Down => rotate_clockwise g
  end.

(** The value of [ret] at the end of that run of [move_left]. *)
Definition move_ret (d : direction) (g : game) : Z :=
  snd (move_left_rows (turned d g)).

(** Quarter turns before and after [move_left], as written in the three
    derived moves. *)
Definition turns_before (d : direction) : nat :=
  match d with Left => 0 | Right => 2 | Up => 3 | Down => 1 end.

Definition turns_after (d : direction) : nat :=
  match d with Left => 0 | Right => 2 | Up => 1 | Down => 3 end.

(** ** Empty cells *)

(** The number of empty cells of a flat board. *)
Fixpoint count_zeros (l : list tile) : Z :=
  match l with
  | [] => 0
  | x :: l' => (if x =? 0 then 1 else 0) + count_zeros l'
  end.

(** The loop body of the search in [place_tile], over a flat board [l]; [F]
    is what the body does where it places the tile. *)
Definition scan_body {R : Type} (l : list tile) (F : nat -> R) (i : nat) (loc : Z) : Z + R :=
  if l !!! i =? 0 then
    if loc =? 0 then inr (F i) else inl (wrap (loc - 1))
  else inl loc.

(** The rank written for a draw [y] of [random()]. *)
Definition rank_of_draw (y : Z) : tile := if negb (Z.rem y 10 =? 0) then 1 else 2.

(** ** Merging, as the specification words it *)

(** Scan left to right; a nonzero cell equal to its right neighbour becomes
    the raised tile followed by an empty cell, [2 ^ (new_rank - 1)] is
    added to the score, and the scan goes on after the pair.  The result is
    the new row, the score gained and the number of merges. *)
Fixpoint merge_pairs (row : list tile) : list tile * Z * nat :=
  match row with
  | [] => ([], 0, O)
  | a :: tl =>
      match tl with
      | [] => ([a], 0, O)
      | b :: rest =>
          if negb (a =? 0) && (a =? b) then
            let '(row', gain, n) := merge_pairs rest in
            ((a + 1) :: 0 :: row', 2 ^ (a + 1 - 1) + gain, Datatypes.S n)
          else
            let '(row', gain, n) := merge_pairs tl in
            (a :: row', gain, n)
      end
  end.

(** Ranks on which [row[c-1]++] and [1 << (row[c-1] - 1)] do not overflow. *)
Definition rank_ok (x : tile) : Prop := 0 <= x <= 30.

(** ** Keys *)

(** The keys that have a [case] in the [switch] of [main]. *)
Definition handled_key (key : Z) : bool :=
  (key =? chr "a") || (key =? KEY_LEFT) || (key =? chr "s") || (key =? KEY_DOWN) ||
  (key =? chr "w") || (key =? KEY_UP) || (key =? chr "d") || (key =? KEY_RIGHT) ||
  (key =? chr "q").

(** The first character of a file that is neither a space nor a tab, as a
    key; 0 when there is none. *)
Fixpoint first_key (f : string) : Z :=
  match f with
  | EmptyString => 0
  | String c f' =>
      if Ascii.eqb c " "%char || Ascii.eqb c tab then first_key f' else chr c
  end.

(** ** Sample states *)

Definition game_sample : game :=
  {| turns := 0; score := 0;
     board := [[1; 1; 2; 2]; [0; 0; 0; 0]; [1; 0; 1; 1]; [0; 3; 0; 3]] |}.

(** A full board on which no two neighbours are equal. *)
Definition game_stuck : game :=
  {| turns := 57; score := 140;
     board := [[1; 2; 1; 2]; [2; 1; 2; 1]; [1; 2; 1; 2]; [2; 1; 2; 1]] |}.

Definition rng_sample : rng := fun n => (7 * n + 3)%nat.

(** A game with one row set and the other rows empty. *)
Definition game_row (t s : Z) (r : nat) (row : list tile) : game :=
  {| turns := t; score := s;
     board := <[r := row]> (replicate NROWS (replicate NCOLS 0)) |}.

Definition playback (f : string) : session :=
  {| the_game := game_sample; rand := rng_sample; playfile := Some f;
     recfile := None; keyboard := fun _ => 0 |}.

Definition blank_line : string := String newline EmptyString.

Definition unknown_line : string := String "x"%char (String newline EmptyString).

(** Four lines: a move, an unknown key, a blank line, a move. *)
Definition replay_file : string :=
  String "a" (String ":" (String "3" (String newline
  (String "x" (String newline
  (String newline
  (String "w" (String newline EmptyString)))))))).

(** The same session with recording switched on. *)
Definition record_to (s : session) : session :=
  {| the_game := the_game s; rand := rand s; playfile := playfile s;
     recfile := Some []; keyboard := keyboard s |}.

Definition stuck_session : session :=
  {| the_game := game_stuck; rand := rng_sample; playfile := None;
     recfile := Some []; keyboard := fun _ => 0 |}.



(** * Definitions for the further properties *)

(** ** Rows and boards, for the further properties *)

(** The tiles of a row in their order, then as many zeros as it has empty
    cells. *)
Definition packed (row : list tile) : list tile :=
  List.filter (fun x => negb (x =? 0)) row ++ List.filter (fun x => x =? 0) row.

(** What [move_left] does to one row, the score left aside. *)
Definition slide_left (row : list tile) : list tile :=
  let '(row, _) := deflate_left row in
  let '(_, row, _) := combine_left game_zero row in
  fst (deflate_left row).

(** The worth of a cell as a mathematical integer: 2 to the power of its
    rank, and 0 when it is empty.  This is not the C [int]: it is the number
    [print_tile] shows, [1 << tile], only up to rank 30 (see
    [shown_number]). *)
Definition tile_value (t : tile) : Z := if t =? 0 then 0 else 2 ^ t.

Fixpoint total (l : list tile) : Z :=
  match l with
  | [] => 0
  | x :: l' => tile_value x + total l'
  end.

(** The sum of these values over the board. *)
Definition board_total (b : list (list tile)) : Z := total (mjoin b).

(** The number a cell shows, as [print_tile] writes it: the [int]
    [1 << tile], and nothing (counted as 0) for an empty cell. *)
Definition shown_number (t : tile) : Z :=
  match print_tile t with
  | Some v => v
  | None => 0
  end.

(** The sum of the numbers [print_game] shows on the board. *)
Definition shown_total (b : list (list tile)) : Z :=
  foldr (fun t acc => shown_number t + acc) 0 (mjoin b).

(** Every rank of the board is one [combine_left] can raise. *)
Definition ranks_ok (b : list (list tile)) : Prop := Forall rank_ok (mjoin b).

(** ** Boards on which nothing can move *)

(** The flag of a pass over one row. *)
Definition row_flag (row : list tile) : Z := snd (fst (row_pass 0 0 row)).

(** No two neighbours of the list are equal. *)
Fixpoint no_equal_pair (l : list tile) : Prop :=
  match l with
  | [] => True
  | a :: tl =>
      match tl with
      | [] => True
      | b :: _ => a <> b /\ no_equal_pair tl
      end
  end.

(** Column [c] of the board, top to bottom. *)
Definition column (b : list (list tile)) (c : nat) : list tile :=
  map (fun r => cell b r c) (seq 0 NROWS).

Definition columns (b : list (list tile)) : list (list tile) :=
  map (column b) (seq 0 NCOLS).

Definition empty_board (b : list (list tile)) : Prop :=
  Forall (fun x => x = 0) (mjoin b).

(** A full board without two equal neighbours in any row or column. *)
Definition stuck_board (b : list (list tile)) : Prop :=
  Forall (fun x => x <> 0) (mjoin b) /\
  Forall no_equal_pair b /\ Forall no_equal_pair (columns b).

(** ** The session *)

(** The move a key stands for in the [switch] of [main]. *)
Definition key_move (key : Z) : option direction :=
  if (key =? chr "a") || (key =? KEY_LEFT) then Some Left
  else if (key =? chr "s") || (key =? KEY_DOWN) then Some Down
  else if (key =? chr "w") || (key =? KEY_UP) then Some Up
  else if (key =? chr "d") || (key =? KEY_RIGHT) then Some Right
  else None.

(** What the C types give of a session: a 4x4 board, [turns] an [int]. *)
Definition session_ok (s : session) : Prop :=
  wf_board (board (the_game s)) /\ in_int (turns (the_game s)).

(** [max_tile(lboard)], with the macro [max] written out. *)
Definition max_tile (lb : list tile) : Z :=
  for_range 0 (NROWS * NCOLS)
    (fun i ret => if ret >? lb !!! i then ret else lb !!! i) 0.

(** ** More sample states *)

Definition sample_session : session :=
  {| the_game := game_sample; rand := rng_sample; playfile := None;
     recfile := Some [(chr "w", 4)]; keyboard := fun _ => chr "a" |}.

Definition seed_session : session :=
  {| the_game := game_zero; rand := rng_sample; playfile := None;
     recfile := None; keyboard := fun _ => chr "q" |}.

(** Every rank of the board lies between 0 and [k]. *)
Definition ranks_within (k : Z) (b : list (list tile)) : Prop :=
  Forall (fun x => 0 <= x <= k) (mjoin b).

(** * Proofs *)

Arguments wrap : simpl never.
Arguments shl : simpl never.

(** ** Rows of four cells, by cases *)

Ltac run_loops :=
  cbv beta iota zeta delta
    [row_pass deflate_left combine_left combine_cells for_range for_from
     NCOLS NROWS Nat.sub lookup_total list_lookup_total insert list_insert
     replicate negb andb of_bool set_score score turns board].

Ltac split_eqb :=
  match goal with
  | |- context [Z.eqb ?x ?y] =>
      let H := fresh "E" in
      destruct (Z.eqb_spec x y) as [H | H];
      [ try (is_var x; subst x); try (is_var y; subst y) | ];
      try (exfalso; lia)
  end.

Ltac by_row_cases := repeat (run_loops; split_eqb); run_loops.

Ltac four_cells row H :=
  destruct row as [| ? [| ? [| ? [| ? [| ? ?]]]]]; try discriminate H.

(** [combine_left] leaves the game alone but for the score. *)
Lemma combine_left_cells (g : game) (row : list tile) :
  combine_left g row =
  let '(s, row', d) := combine_cells (score g) row in (set_score g s, row', d).
Proof.
  destruct g as [gt gs gb].
  unfold combine_left, combine_cells, for_range; cbn [Nat.sub NCOLS NROWS for_from].
  repeat match goal with
         | |- context [if ?b then _ else _] => destruct b
         end; reflexivity.
Qed.

(** What one row can do: its flag is 0 or 1; with flag 0 the row and the
    score are untouched; with flag 1 the row has changed and holds an empty
    cell (a deflation needs one to move into, a merge leaves one behind). *)
Lemma row_pass_facts (s : Z) (row : list tile) :
  wf_row row ->
  let '(s', f, row') := row_pass s 0 row in
  wf_row row' /\
  (f = 0 \/ f = 1) /\
  (f = 0 -> row' = row /\ s' = s) /\
  (f = 1 -> row' <> row /\ In 0 row').
Proof.
  intros H. four_cells row H.
  by_row_cases; cbv [Z.lor Pos.lor wf_row NCOLS NROWS length];
    repeat split; intros; first [reflexivity | lia | congruence | (cbn; lia)].
Qed.

(** The incoming flag is only or-ed into the outgoing one. *)
Lemma row_pass_ret (s ret : Z) (row : list tile) :
  row_pass s ret row =
  let '(s', f, row') := row_pass s 0 row in (s', Z.lor ret f, row').
Proof.
  unfold row_pass.
  destruct (deflate_left row) as [r1 d1].
  destruct (combine_cells s r1) as [[s1 r2] c].
  destruct (deflate_left r2) as [r3 d2].
  now rewrite Z.lor_0_l, !Z.lor_assoc.
Qed.

(** ** The loop of [move_left] over the four rows *)

(** The loop body on row [r], with the stores through [row] folded in. *)
Lemma move_left_row_pass (r : nat) (g : game) (ret : Z) :
  (r < length (board g))%nat ->
  move_left_row r (g, ret) =
  let '(s', ret', row') := row_pass (score g) ret (board g !!! r) in
  ({| turns := turns g; score := s'; board := <[r := row']> (board g) |}, ret').
Proof.
  intros Hr. destruct g as [gt gs gb]; cbn [board score turns] in *.
  unfold move_left_row, row_pass; cbn [board set_board].
  destruct (deflate_left (gb !!! r)) as [r1 d1].
  rewrite combine_left_cells; cbn [board set_board score].
  rewrite list_lookup_total_insert_eq by assumption.
  destruct (combine_cells gs r1) as [[s1 r2] c]; cbn [board set_board set_score].
  rewrite list_lookup_total_insert_eq by (now rewrite length_insert).
  destruct (deflate_left r2) as [r3 d2].
  unfold set_board; cbn [board turns score].
  now rewrite !list_insert_insert_eq.
Qed.

Lemma move_left_rows_unroll (g : game) (r0 r1 r2 r3 : list tile) :
  board g = [r0; r1; r2; r3] ->
  move_left_rows g =
  let '(s0, f0, q0) := row_pass (score g) 0 r0 in
  let '(s1, f1, q1) := row_pass s0 f0 r1 in
  let '(s2, f2, q2) := row_pass s1 f1 r2 in
  let '(s3, f3, q3) := row_pass s2 f2 r3 in
  ({| turns := turns g; score := s3; board := [q0; q1; q2; q3] |}, f3).
Proof.
  destruct g as [gt gs gb]; cbn [board score turns]; intros ->.
  unfold move_left_rows, for_range; cbn [Nat.sub NROWS for_from].
  rewrite move_left_row_pass by (cbn; lia).
  cbn [board score turns lookup_total list_lookup_total].
  destruct (row_pass gs 0 r0) as [[s0 f0] q0].
  rewrite move_left_row_pass by (cbn; lia).
  cbn [board score turns lookup_total list_lookup_total insert list_insert].
  destruct (row_pass s0 f0 r1) as [[s1 f1] q1].
  rewrite move_left_row_pass by (cbn; lia).
  cbn [board score turns lookup_total list_lookup_total insert list_insert].
  destruct (row_pass s1 f1 r2) as [[s2 f2] q2].
  rewrite move_left_row_pass by (cbn; lia).
  cbn [board score turns lookup_total list_lookup_total insert list_insert].
  destruct (row_pass s2 f2 r3) as [[s3 f3] q3].
  reflexivity.
Qed.

Lemma wf_board_rows (b : list (list tile)) :
  wf_board b ->
  exists r0 r1 r2 r3,
    b = [r0; r1; r2; r3] /\ wf_row r0 /\ wf_row r1 /\ wf_row r2 /\ wf_row r3.
Proof.
  intros [Hl Hr].
  destruct b as [| r0 [| r1 [| r2 [| r3 [| ? ?]]]]]; try discriminate Hl.
  exists r0, r1, r2, r3.
  repeat match goal with
         | H : Forall _ (_ :: _) |- _ => apply Forall_cons in H; destruct H
         end.
  auto.
Qed.

Lemma wf_board_intro (r0 r1 r2 r3 : list tile) :
  wf_row r0 -> wf_row r1 -> wf_row r2 -> wf_row r3 -> wf_board [r0; r1; r2; r3].
Proof. intros; split; [reflexivity | repeat constructor; assumption]. Qed.

(** The loop of [move_left] on a 4x4 board: [ret] is 0 or 1, 0 exactly when
    nothing changed, and a changed board has an empty cell. *)
Lemma move_left_rows_facts (g : game) :
  wf_board (board g) ->
  let '(g', ret) := move_left_rows g in
  turns g' = turns g /\ wf_board (board g') /\
  (ret = 0 \/ ret = 1) /\
  (ret = 0 -> g' = g) /\
  (ret = 1 -> board g' <> board g /\ has_empty (board g')).
Proof.
  intros Hwf.
  destruct (wf_board_rows _ Hwf) as (r0 & r1 & r2 & r3 & Hb & H0 & H1 & H2 & H3).
  rewrite (move_left_rows_unroll g r0 r1 r2 r3 Hb).
  destruct g as [gt gs gb]; cbn [board score turns] in *; subst gb.
  pose proof (row_pass_facts gs r0 H0) as P0.
  destruct (row_pass gs 0 r0) as [[s0 f0] q0].
  rewrite (row_pass_ret s0 f0 r1).
  pose proof (row_pass_facts s0 r1 H1) as P1.
  destruct (row_pass s0 0 r1) as [[s1 f1] q1].
  rewrite (row_pass_ret s1 _ r2).
  pose proof (row_pass_facts s1 r2 H2) as P2.
  destruct (row_pass s1 0 r2) as [[s2 f2] q2].
  rewrite (row_pass_ret s2 _ r3).
  pose proof (row_pass_facts s2 r3 H3) as P3.
  destruct (row_pass s2 0 r3) as [[s3 f3] q3].
  cbn [board turns score].
  destruct P0 as (W0 & D0 & Z0 & N0), P1 as (W1 & D1 & Z1 & N1),
           P2 as (W2 & D2 & Z2 & N2), P3 as (W3 & D3 & Z3 & N3).
  split; [reflexivity |].
  split; [now apply wf_board_intro |].
  unfold has_empty; cbn [mjoin list_join].
  destruct D0 as [-> | ->], D1 as [-> | ->], D2 as [-> | ->], D3 as [-> | ->];
    cbv [Z.lor Pos.lor];
    (split; [lia |]);
    (split; [ intros E; try discriminate E | intros E; try discriminate E ]);
    repeat match goal with
           | H : ?x = ?x -> _ |- _ => specialize (H eq_refl); destruct H
           | H : 0 = 1 -> _ |- _ => clear H
           | H : 1 = 0 -> _ |- _ => clear H
           end;
    subst;
    first [ reflexivity
          | split; [ congruence | rewrite !in_app_iff; tauto ] ].
Qed.

(** ** Loop invariants *)

Lemma for_from_preserves {S A : Type} (f : S -> A) (body : nat -> S -> S) :
  (forall i s, f (body i s) = f s) ->
  forall n i s, f (for_from i n body s) = f s.
Proof.
  intros Hbody n; induction n as [| n IH]; intros i s; cbn.
  - reflexivity.
  - now rewrite IH, Hbody.
Qed.

Lemma for_from_commute {S T : Type} (f : S -> T)
      (body1 : nat -> S -> S) (body2 : nat -> T -> T) :
  (forall i s, body2 i (f s) = f (body1 i s)) ->
  forall n i s, for_from i n body2 (f s) = f (for_from i n body1 s).
Proof.
  intros Hbody n; induction n as [| n IH]; intros i s; cbn.
  - reflexivity.
  - now rewrite Hbody, IH.
Qed.

(** ** Rotation *)

Lemma rotate_clockwise_turns (g : game) : turns (rotate_clockwise g) = turns g.
Proof.
  unfold rotate_clockwise, for_range.
  apply (for_from_preserves turns); intros r g'.
  apply (for_from_preserves turns); intros c g''. reflexivity.
Qed.

Lemma rotate_clockwise_score (g : game) : score (rotate_clockwise g) = score g.
Proof.
  unfold rotate_clockwise, for_range.
  apply (for_from_preserves score); intros r g'.
  apply (for_from_preserves score); intros c g''. reflexivity.
Qed.

(** The rotated board depends on the board alone. *)
Lemma rotate_clockwise_board (g : game) :
  board (rotate_clockwise g) = rotate_board (board g).
Proof.
  unfold rotate_board, rotate_clockwise, for_range; cbn [board].
  set (buf := board g).
  set (f := fun g' : game => {| turns := 0; score := 0; board := board g' |}).
  change {| turns := 0; score := 0; board := buf |} with (f g).
  erewrite (for_from_commute f).
  - reflexivity.
  - intros r g'. erewrite (for_from_commute f); [reflexivity |].
    intros c g''. reflexivity.
Qed.

Lemma rotate_clockwise_eq (g : game) :
  rotate_clockwise g = set_board g (rotate_board (board g)).
Proof.
  pose proof (rotate_clockwise_turns g) as Ht.
  pose proof (rotate_clockwise_score g) as Hs.
  pose proof (rotate_clockwise_board g) as Hb.
  destruct (rotate_clockwise g) as [t s b].
  destruct g as [gt gs gb]; unfold set_board; cbn [turns score board] in *.
  congruence.
Qed.

(** The rotation, cell by cell. *)
Lemma rotate_board_cells (a0 a1 a2 a3 b0 b1 b2 b3 c0 c1 c2 c3 d0 d1 d2 d3 : tile) :
  rotate_board [[a0; a1; a2; a3]; [b0; b1; b2; b3]; [c0; c1; c2; c3]; [d0; d1; d2; d3]]
  = [[d0; c0; b0; a0]; [d1; c1; b1; a1]; [d2; c2; b2; a2]; [d3; c3; b3; a3]].
Proof. reflexivity. Qed.

Lemma wf_board_cells (b : list (list tile)) :
  wf_board b ->
  exists a0 a1 a2 a3 b0 b1 b2 b3 c0 c1 c2 c3 d0 d1 d2 d3,
    b = [[a0; a1; a2; a3]; [b0; b1; b2; b3]; [c0; c1; c2; c3]; [d0; d1; d2; d3]].
Proof.
  intros Hwf.
  destruct (wf_board_rows _ Hwf) as (r0 & r1 & r2 & r3 & -> & H0 & H1 & H2 & H3).
  four_cells r0 H0. four_cells r1 H1. four_cells r2 H2. four_cells r3 H3.
  repeat eexists.
Qed.

Ltac board_cells b H :=
  let E := fresh "E" in
  destruct (wf_board_cells b H)
    as (?a0 & ?a1 & ?a2 & ?a3 & ?b0 & ?b1 & ?b2 & ?b3 &
        ?c0 & ?c1 & ?c2 & ?c3 & ?d0 & ?d1 & ?d2 & ?d3 & E);
  try subst b.

Lemma rotate_board_wf (b : list (list tile)) : wf_board b -> wf_board (rotate_board b).
Proof.
  intros H. board_cells b H. rewrite rotate_board_cells.
  now apply wf_board_intro.
Qed.

Lemma rotate_board_four (b : list (list tile)) :
  wf_board b -> rotate_board (rotate_board (rotate_board (rotate_board b))) = b.
Proof.
  intros H. board_cells b H. now rewrite !rotate_board_cells.
Qed.

Lemma rotate_board_has_empty (b : list (list tile)) :
  wf_board b -> has_empty (rotate_board b) <-> has_empty b.
Proof.
  intros H. board_cells b H. rewrite rotate_board_cells.
  unfold has_empty; cbn. tauto.
Qed.

Lemma rotate_board_inj (b b' : list (list tile)) :
  wf_board b -> wf_board b' -> rotate_board b = rotate_board b' -> b = b'.
Proof.
  intros H H' E.
  rewrite <- (rotate_board_four b H), <- (rotate_board_four b' H').
  now rewrite E.
Qed.

(** ** Machine integers *)

Lemma wrap_in_int (z : Z) : in_int z -> wrap z = z.
Proof.
  unfold in_int, int_min, int_max, wrap; intros H.
  rewrite Z.mod_small; lia.
Qed.

Lemma wrap_range (z : Z) : in_int (wrap z).
Proof.
  unfold in_int, int_min, int_max, wrap.
  pose proof (Z.mod_pos_bound (z + 2 ^ 31) (2 ^ 32)). lia.
Qed.

Lemma wrap_add_l (x y : Z) : wrap (wrap x + y) = wrap (x + y).
Proof.
  unfold wrap.
  replace ((x + 2 ^ 31) mod 2 ^ 32 - 2 ^ 31 + y + 2 ^ 31)
    with ((x + 2 ^ 31) mod 2 ^ 32 + y) by lia.
  rewrite Zplus_mod_idemp_l. f_equal. f_equal. lia.
Qed.

(** Fewer than 2^32 increments that bring an [int] back to its value are none. *)
Lemma wrap_fixed (x k : Z) : 0 <= k < 2 ^ 32 -> wrap (x + k) = x -> k = 0.
Proof.
  intros Hk E.
  assert (Hx : in_int x) by (rewrite <- E; apply wrap_range).
  unfold wrap, in_int, int_min, int_max in *.
  pose proof (Z.div_mod (x + k + 2 ^ 31) (2 ^ 32) ltac:(lia)) as D.
  assert ((x + k + 2 ^ 31) / 2 ^ 32 = 0 \/ (x + k + 2 ^ 31) / 2 ^ 32 = 1) as [Q | Q].
  { assert (0 <= (x + k + 2 ^ 31) / 2 ^ 32) by (apply Z.div_pos; lia).
    assert ((x + k + 2 ^ 31) / 2 ^ 32 < 2) by (apply Z.div_lt_upper_bound; lia).
    lia. }
  - rewrite Q in D. replace (x + k + 2 ^ 31) with (x + 2 ^ 31 + k) in * by lia. lia.
  - rewrite Q in D.
    replace (x + k + 2 ^ 31) with (x + 2 ^ 31 + k) in * by lia.
    replace (x + k + 2 ^ 31) with (x + 2 ^ 31 + k) in E by lia. lia.
Qed.

(** ** The four moves *)

Lemma move_left_facts (g : game) :
  wf_board (board g) ->
  let ret := snd (move_left_rows g) in
  (ret = 0 \/ ret = 1) /\
  turns (move_left g) = wrap (turns g + ret) /\
  wf_board (board (move_left g)) /\
  (ret = 0 -> board (move_left g) = board g /\ score (move_left g) = score g) /\
  (ret = 1 -> board (move_left g) <> board g /\ has_empty (board (move_left g))).
Proof.
  intros Hwf. pose proof (move_left_rows_facts g Hwf) as F.
  unfold move_left. destruct (move_left_rows g) as [g' ret].
  destruct F as (Ht & W & D & Z0 & N1). cbn [snd turns board score set_turns].
  split; [assumption |]. split; [now rewrite Ht |]. split; [assumption |].
  split.
  - intros E. now rewrite (Z0 E).
  - exact N1.
Qed.

Lemma rotate_iter_wf (k : nat) (b : list (list tile)) :
  wf_board b -> wf_board (rotate_times k b).
Proof.
  intros H; induction k as [| k IH]; cbn [rotate_times]; [assumption |].
  now apply rotate_board_wf.
Qed.

Lemma rotate_iter_inj (k : nat) (b b' : list (list tile)) :
  wf_board b -> wf_board b' ->
  rotate_times k b = rotate_times k b' -> b = b'.
Proof.
  intros H H'; induction k as [| k IH]; cbn [rotate_times]; [trivial |].
  intros E. apply IH.
  apply rotate_board_inj; auto using rotate_iter_wf.
Qed.

Lemma rotate_iter_has_empty (k : nat) (b : list (list tile)) :
  wf_board b -> has_empty (rotate_times k b) <-> has_empty b.
Proof.
  intros H; induction k as [| k IH]; cbn [rotate_times]; [tauto |].
  rewrite rotate_board_has_empty by auto using rotate_iter_wf. exact IH.
Qed.

Lemma rotate_n_turns (k : nat) (g : game) : turns (rotate_n k g) = turns g.
Proof.
  induction k as [| k IH]; cbn [rotate_n]; [reflexivity |].
  now rewrite rotate_clockwise_turns.
Qed.

Lemma rotate_n_score (k : nat) (g : game) : score (rotate_n k g) = score g.
Proof.
  induction k as [| k IH]; cbn [rotate_n]; [reflexivity |].
  now rewrite rotate_clockwise_score.
Qed.

Lemma rotate_n_board (k : nat) (g : game) :
  board (rotate_n k g) = rotate_times k (board g).
Proof.
  induction k as [| k IH]; cbn [rotate_n rotate_times]; [reflexivity |].
  now rewrite rotate_clockwise_board, IH.
Qed.

Lemma turned_eq (d : direction) (g : game) :
  turned d g = rotate_n (turns_before d) g.
Proof. destruct d; reflexivity. Qed.

Lemma move_eq (d : direction) (g : game) :
  move d g = rotate_n (turns_after d) (move_left (turned d g)).
Proof. destruct d; reflexivity. Qed.

Lemma rotate_times_round (d : direction) (b : list (list tile)) :
  wf_board b ->
  rotate_times (turns_after d) (rotate_times (turns_before d) b) = b.
Proof.
  intros Hb.
  destruct d; cbn [rotate_times turns_before turns_after];
    auto using rotate_board_four.
Qed.

(** The facts of [move_left_rows_facts], carried through the rotations to
    every direction. *)
Lemma move_facts (d : direction) (g : game) :
  wf_board (board g) ->
  let ret := move_ret d g in
  (ret = 0 \/ ret = 1) /\
  turns (move d g) = wrap (turns g + ret) /\
  wf_board (board (move d g)) /\
  (ret = 0 -> board (move d g) = board g /\ score (move d g) = score g) /\
  (ret = 1 -> board (move d g) <> board g /\ has_empty (board (move d g))).
Proof.
  intros Hwf. unfold move_ret. rewrite move_eq.
  assert (W1 : wf_board (board (turned d g))).
  { rewrite turned_eq, rotate_n_board. now apply rotate_iter_wf. }
  destruct (move_left_facts _ W1) as (D & Ht & W & Z0 & N1).
  rewrite rotate_n_turns, rotate_n_score, rotate_n_board.
  assert (Et : turns (turned d g) = turns g)
    by (rewrite turned_eq; apply rotate_n_turns).
  assert (Es : score (turned d g) = score g)
    by (rewrite turned_eq; apply rotate_n_score).
  assert (Eb : board (turned d g) = rotate_times (turns_before d) (board g))
    by (rewrite turned_eq; apply rotate_n_board).
  cbv zeta.
  split; [assumption |]. split; [now rewrite Ht, Et |].
  split; [now apply rotate_iter_wf |].
  split.
  - intros E0. destruct (Z0 E0) as [E1 E2].
    rewrite E1, E2, Eb, Es. split; [| reflexivity].
    now apply rotate_times_round.
  - intros E1. destruct (N1 E1) as [Hne He].
    split; [| now apply rotate_iter_has_empty].
    intros E. apply Hne. rewrite Eb.
    apply (rotate_iter_inj (turns_after d)); auto using rotate_iter_wf.
    now rewrite E, rotate_times_round.
Qed.

(** ** Counting and finding empty cells *)

Lemma count_zeros_bounds (l : list tile) : 0 <= count_zeros l <= Z.of_nat (length l).
Proof.
  induction l as [| x l IH]; cbn [count_zeros length]; [lia |].
  destruct (x =? 0); lia.
Qed.

Lemma count_zeros_pos (l : list tile) : In 0 l <-> 0 < count_zeros l.
Proof.
  induction l as [| x l IH]; cbn [count_zeros In]; [lia |].
  pose proof (count_zeros_bounds l).
  destruct (Z.eqb_spec x 0); split; intros; try lia; intuition.
Qed.

Lemma lboard_length (g : game) :
  wf_board (board g) -> length (lboard g) = (NROWS * NCOLS)%nat.
Proof.
  intros H. unfold lboard. board_cells (board g) H. now rewrite E.
Qed.

(** The first loop of [place_tile], from any position on. *)
Lemma count_loop (l : list tile) :
  forall suf pre acc,
    l = pre ++ suf ->
    for_from (length pre) (length suf)
      (fun i num_zeros => num_zeros + (if l !!! i =? 0 then 1 else 0)) acc
    = acc + count_zeros suf.
Proof.
  induction suf as [| x suf IH]; intros pre acc El; cbn [length for_from count_zeros].
  - lia.
  - replace (l !!! length pre) with x
      by (subst l; now rewrite list_lookup_total_middle).
    replace (Datatypes.S (length pre)) with (length (pre ++ [x]))
      by (rewrite length_app; cbn; lia).
    rewrite IH by (now rewrite <- app_assoc).
    lia.
Qed.

(** The second loop of [place_tile], from any position on: with [loc]
    below the number of empty cells still ahead, it returns at the empty
    cell that has [loc] empty cells between the position and itself. *)
Lemma scan_loop {R : Type} (l : list tile) (F : nat -> R) :
  forall suf pre loc,
    l = pre ++ suf ->
    0 <= loc < count_zeros suf ->
    loc <= int_max ->
    exists k,
      for_return_from (length pre) (length suf) (scan_body l F) loc
      = inr (F (length pre + k)%nat) /\
      (k < length suf)%nat /\
      suf !!! k = 0 /\
      count_zeros (take k suf) = loc.
Proof.
  induction suf as [| x suf IH]; intros pre loc El Hloc Hmax;
    cbn [count_zeros length for_return_from] in *.
  - lia.
  - unfold scan_body at 1.
    replace (l !!! length pre) with x
      by (subst l; now rewrite list_lookup_total_middle).
    assert (El' : l = (pre ++ [x]) ++ suf) by (now rewrite <- app_assoc).
    assert (Hlen : length (pre ++ [x]) = Datatypes.S (length pre))
      by (rewrite length_app; cbn; lia).
    pose proof (count_zeros_bounds suf) as Hb.
    destruct (Z.eqb_spec x 0) as [Hx | Hx].
    + destruct (Z.eqb_spec loc 0) as [-> | Hl].
      * exists O. rewrite Nat.add_0_r. cbn. repeat split; lia.
      * rewrite wrap_in_int by (unfold in_int, int_min, int_max in *; lia).
        destruct (IH (pre ++ [x]) (loc - 1) El' ltac:(lia) ltac:(lia))
          as (k & Ek & Hk & Hz & Hc).
        exists (Datatypes.S k). rewrite Hlen in Ek.
        rewrite Ek. cbn [take count_zeros lookup_total list_lookup_total].
        destruct (Z.eqb_spec x 0); [| contradiction].
        replace (length pre + Datatypes.S k)%nat
          with (Datatypes.S (length pre) + k)%nat by lia.
        repeat split; try lia; assumption.
    + destruct (IH (pre ++ [x]) loc El' ltac:(lia) ltac:(lia))
        as (k & Ek & Hk & Hz & Hc).
      exists (Datatypes.S k). rewrite Hlen in Ek.
      rewrite Ek. cbn [take count_zeros lookup_total list_lookup_total].
      destruct (Z.eqb_spec x 0); [contradiction |].
      replace (length pre + Datatypes.S k)%nat
        with (Datatypes.S (length pre) + k)%nat by lia.
      repeat split; try lia; assumption.
Qed.

(** ** [place_tile] *)

Lemma random_range (rs : rng) : 0 <= fst (random rs) < 2 ^ 31.
Proof. cbn [random fst]. apply Z.mod_pos_bound. lia. Qed.

Lemma num_zeros_loop (g : game) :
  wf_board (board g) ->
  for_range 0 (NROWS * NCOLS)
    (fun i num_zeros => num_zeros + (if lboard g !!! i =? 0 then 1 else 0)) 0
  = count_zeros (lboard g).
Proof.
  intros H. unfold for_range. rewrite Nat.sub_0_r, <- (lboard_length g H).
  exact (count_loop (lboard g) (lboard g) [] 0 eq_refl).
Qed.

Lemma place_tile_full (g : game) (rs : rng) :
  wf_board (board g) ->
  count_zeros (lboard g) = 0 ->
  place_tile g rs = (Returned (-1), g, rs).
Proof.
  intros H E. unfold place_tile. rewrite (num_zeros_loop g H), E. reflexivity.
Qed.

Lemma place_tile_spawn (g : game) (rs : rng) :
  wf_board (board g) ->
  0 < count_zeros (lboard g) ->
  let x := fst (random rs) in
  let y := fst (random (snd (random rs))) in
  let rs' := snd (random (snd (random rs))) in
  exists p,
    (p < NROWS * NCOLS)%nat /\
    lboard g !!! p = 0 /\
    count_zeros (take p (lboard g)) = Z.rem x (count_zeros (lboard g)) /\
    place_tile g rs = (Returned 0, set_lboard g p (rank_of_draw y), rs').
Proof.
  intros H Hpos x y rs'.
  pose proof (count_zeros_bounds (lboard g)) as Hb.
  pose proof (lboard_length g H) as Hlen.
  pose proof (random_range rs) as Hx. subst x y rs'.
  destruct (random rs) as [x rs1] eqn:Er; cbn [fst snd] in *.
  assert (Hrem : 0 <= Z.rem x (count_zeros (lboard g)) < count_zeros (lboard g)).
  { rewrite Z.rem_mod_nonneg by lia. apply Z.mod_pos_bound. lia. }
  assert (Hsmall : Z.rem x (count_zeros (lboard g)) <= 16).
  { rewrite Hlen in Hb. cbn in Hb. lia. }
  unfold place_tile. rewrite (num_zeros_loop g H).
  destruct (Z.eqb_spec (count_zeros (lboard g)) 0) as [E0 | _]; [lia |].
  rewrite Er.
  rewrite wrap_in_int by (unfold in_int, int_min, int_max; lia).
  set (F := fun i : nat =>
              let '(y, rs) := random rs1 in (set_lboard g i (rank_of_draw y), rs)).
  change (for_return 0 (NROWS * NCOLS) _ ?loc)
    with (for_return_from 0 (NROWS * NCOLS - 0) (scan_body (lboard g) F) loc).
  rewrite Nat.sub_0_r, <- Hlen.
  destruct (scan_loop (lboard g) F (lboard g) [] _ eq_refl Hrem
              ltac:(unfold int_max; lia)) as (k & Ek & Hk & Hz & Hc).
  cbn [length Nat.add] in Ek. rewrite Ek.
  exists k. subst F. cbv beta.
  destruct (random rs1) as [y0 rs2]. cbn [fst snd] in *.
  repeat split; assumption.
Qed.

(** A store through the flat view is an update of the flat list. *)
Lemma set_lboard_flat (g : game) (p : nat) (v : tile) :
  wf_board (board g) ->
  lboard (set_lboard g p v) = <[p := v]> (lboard g) /\
  wf_board (board (set_lboard g p v)).
Proof.
  intros H. pose proof (lboard_length g H) as Hlen.
  unfold set_lboard, lboard in *; cbn [board set_board].
  assert (Hl : length (<[p := v]> (mjoin (board g))) = 16%nat)
    by (now rewrite length_insert, Hlen).
  split.
  - apply join_reshape. now rewrite Hl.
  - remember (<[p := v]> (mjoin (board g))) as l eqn:El. clear El.
    do 17 (destruct l as [| ? l]; try discriminate Hl).
    cbn. now apply wf_board_intro.
Qed.

Lemma place_tile_no_room (g : game) (rs : rng) :
  wf_board (board g) ->
  ~ has_empty (board g) ->
  place_tile g rs = (Returned (-1), g, rs).
Proof.
  intros Hwf Hn. apply place_tile_full; [assumption |].
  pose proof (count_zeros_bounds (lboard g)) as Hb.
  destruct (Z.eq_dec (count_zeros (lboard g)) 0) as [E | E]; [assumption |].
  exfalso. apply Hn. unfold has_empty. apply count_zeros_pos.
  fold (lboard g). lia.
Qed.

(** ** Ineffective moves *)

Lemma game_eq (g g' : game) :
  turns g = turns g' -> score g = score g' -> board g = board g' -> g = g'.
Proof. destruct g, g'; cbn; congruence. Qed.

(** A move whose flag is 0 returns the game it was given. *)
Lemma move_ret_zero (d : direction) (g : game) :
  wf_board (board g) -> in_int (turns g) -> move_ret d g = 0 -> move d g = g.
Proof.
  intros Hwf Hint E.
  destruct (move_facts d g Hwf) as (_ & Ht & _ & Z0 & _).
  destruct (Z0 E) as [Eb Es].
  apply game_eq; try assumption.
  rewrite Ht, E, Z.add_0_r. now apply wrap_in_int.
Qed.

Lemma move_turns_wrap (d : direction) (g : game) :
  wf_board (board g) ->
  turns (move d g) = wrap (turns g + move_ret d g) /\
  (move_ret d g = 0 \/ move_ret d g = 1) /\
  wf_board (board (move d g)).
Proof.
  intros Hwf. destruct (move_facts d g Hwf) as (D & Ht & W & _). auto.
Qed.

Lemma lose_game_moves (g : game) :
  lose_game g
  = of_bool (turns (move Right (move Down (move Up (move Left g)))) =? turns g).
Proof. cbv beta iota zeta delta [lose_game move]. reflexivity. Qed.

(** [lose_game] returns true only if all four flags are 0: the four moves
    run one after the other, each on the unchanged game. *)
Lemma lose_game_rets (g : game) :
  wf_board (board g) ->
  lose_game g <> 0 ->
  in_int (turns g) /\ forall d, move_ret d g = 0.
Proof.
  intros Hwf Hlose.
  rewrite lose_game_moves in Hlose.
  destruct (move_turns_wrap Left g Hwf) as (T1 & D1 & W1).
  destruct (move_turns_wrap Up _ W1) as (T2 & D2 & W2).
  destruct (move_turns_wrap Down _ W2) as (T3 & D3 & W3).
  destruct (move_turns_wrap Right _ W3) as (T4 & D4 & _).
  destruct (Z.eqb_spec (turns (move Right (move Down (move Up (move Left g)))))
              (turns g)) as [E | E]; [| exfalso; apply Hlose; reflexivity].
  rewrite T1, wrap_add_l in T2. rewrite T2, wrap_add_l in T3.
  rewrite T3, wrap_add_l in T4. rewrite T4, <- !Z.add_assoc in E.
  assert (Hint : in_int (turns g)) by (rewrite <- E; apply wrap_range).
  apply wrap_fixed in E; [| lia].
  assert (R1 : move_ret Left g = 0) by lia.
  pose proof (move_ret_zero Left g Hwf Hint R1) as G1. rewrite G1 in *.
  assert (R2 : move_ret Up g = 0) by lia.
  pose proof (move_ret_zero Up g Hwf Hint R2) as G2. rewrite G2 in *.
  assert (R3 : move_ret Down g = 0) by lia.
  pose proof (move_ret_zero Down g Hwf Hint R3) as G3. rewrite G3 in *.
  assert (R4 : move_ret Right g = 0) by lia.
  split; [assumption |]. intros []; assumption.
Qed.

Lemma game_sample_wf : wf_board (board game_sample).
Proof. now apply wf_board_intro. Qed.

Lemma game_stuck_wf : wf_board (board game_stuck).
Proof. now apply wf_board_intro. Qed.

(** ** Merging *)

Lemma rank_raise (a : tile) :
  rank_ok a ->
  wrap (a + 1) = a + 1 /\
  shl 1 (wrap (a + 1 - 1)) = 2 ^ (a + 1 - 1) /\
  0 < 2 ^ (a + 1 - 1) <= 2 ^ 30.
Proof.
  unfold rank_ok; intros H.
  assert (Hp : 0 < 2 ^ (a + 1 - 1) <= 2 ^ 30).
  { replace (a + 1 - 1) with a by lia. split.
    - apply Z.pow_pos_nonneg; lia.
    - apply Z.pow_le_mono_r; lia. }
  split; [| split; [| exact Hp]].
  - apply wrap_in_int. unfold in_int, int_min, int_max. lia.
  - unfold shl. rewrite (wrap_in_int (a + 1 - 1))
      by (unfold in_int, int_min, int_max; lia).
    rewrite Z.shiftl_1_l. apply wrap_in_int.
    unfold in_int, int_min, int_max. lia.
Qed.

Ltac raise_ranks :=
  repeat match goal with
         | H : rank_ok ?a |- context [wrap (?a + 1)] =>
             let W := fresh "W" in
             let S := fresh "S" in
             let P := fresh "P" in
             destruct (rank_raise a H) as (W & S & P);
             rewrite !W; rewrite ?S
         end.

(** The loop of [combine_left] is the pair scan, by cases on the four cells. *)
Lemma combine_cells_merges (s : Z) (row : list tile) :
  wf_row row ->
  Forall rank_ok row ->
  in_int s ->
  let '(row', gain, n) := merge_pairs row in
  s + gain <= int_max ->
  combine_cells s row = (s + gain, row', of_bool (0 <? n)%nat).
Proof.
  intros H Hr Hs. four_cells row H.
  repeat match goal with
         | H : Forall _ (_ :: _) |- _ => apply Forall_cons in H; destruct H
         end.
  unfold in_int, int_min in Hs.
  repeat (cbv beta iota zeta delta
            [combine_cells merge_pairs for_range for_from NCOLS NROWS Nat.sub
             lookup_total list_lookup_total insert list_insert negb andb
             of_bool Nat.ltb Nat.leb];
          split_eqb);
    cbv beta iota zeta delta
      [combine_cells merge_pairs for_range for_from NCOLS NROWS Nat.sub
       lookup_total list_lookup_total insert list_insert negb andb
       of_bool Nat.ltb Nat.leb];
    intros Hmax; unfold int_max in *; raise_ranks;
    repeat match goal with
           | |- context [wrap ?z] =>
               rewrite (wrap_in_int z) by (unfold in_int, int_min, int_max; lia)
           end;
    do 2 f_equal; lia.
Qed.

Lemma merge_pairs_step (a b : tile) (rest : list tile) :
  merge_pairs (a :: b :: rest) =
  if negb (a =? 0) && (a =? b) then
    let '(row', gain, n) := merge_pairs rest in
    ((a + 1) :: 0 :: row', 2 ^ (a + 1 - 1) + gain, Datatypes.S n)
  else
    let '(row', gain, n) := merge_pairs (b :: rest) in
    (a :: row', gain, n).
Proof. reflexivity. Qed.

Lemma merge_pairs_count_le (k : nat) :
  forall row, (length row <= k)%nat ->
              (2 * snd (merge_pairs row) <= length row)%nat.
Proof.
  induction k as [| k IH]; intros row Hk.
  - destruct row; [cbn; lia | cbn in Hk; lia].
  - destruct row as [| a [| b rest]]; [cbn; lia | cbn; lia |].
    rewrite merge_pairs_step.
    destruct (negb (a =? 0) && (a =? b)).
    + specialize (IH rest ltac:(cbn in Hk; lia)).
      destruct (merge_pairs rest) as [[row' gain] n]. cbn in *. lia.
    + specialize (IH (b :: rest) ltac:(cbn in *; lia)).
      destruct (merge_pairs (b :: rest)) as [[row' gain] n]. cbn in *. lia.
Qed.

(** ** One row of the scenario *)

Lemma row_pass_empty (s ret : Z) :
  row_pass s ret [0; 0; 0; 0] = (s, ret, [0; 0; 0; 0]).
Proof.
  rewrite row_pass_ret.
  cbv beta iota zeta delta
    [row_pass deflate_left combine_cells for_range for_from NCOLS NROWS Nat.sub
     lookup_total list_lookup_total insert list_insert replicate negb andb
     of_bool Z.eqb].
  now rewrite !Z.lor_0_r.
Qed.

Lemma row_pass_1122 (s ret : Z) :
  in_int s -> s + 6 <= int_max ->
  row_pass s ret [1; 1; 2; 2] = (s + 6, Z.lor ret 1, [2; 3; 0; 0]).
Proof.
  intros Hs Hmax. rewrite row_pass_ret. unfold row_pass.
  replace (deflate_left [1; 1; 2; 2]) with ([1; 1; 2; 2], 0)
    by (vm_compute; reflexivity).
  assert (Hr : Forall rank_ok [1; 1; 2; 2])
    by (repeat constructor; unfold rank_ok; lia).
  pose proof (combine_cells_merges s [1; 1; 2; 2] eq_refl Hr Hs) as Hc.
  cbn [merge_pairs] in Hc.
  change (negb (1 =? 0) && (1 =? 1)) with true in Hc.
  change (negb (2 =? 0) && (2 =? 2)) with true in Hc.
  cbv beta iota zeta in Hc.
  change (1 + 1) with 2 in Hc. change (2 + 1) with 3 in Hc.
  change (2 ^ (2 - 1) + (2 ^ (3 - 1) + 0)) with 6 in Hc.
  rewrite (Hc Hmax).
  replace (deflate_left [2; 0; 3; 0]) with ([2; 3; 0; 0], 1)
    by (vm_compute; reflexivity).
  reflexivity.
Qed.

(** ** Playback *)

Lemma chr_range (c : ascii) : 0 <= chr c < 256.
Proof.
  unfold chr. pose proof (N_ascii_bounded c). lia.
Qed.

Lemma chr_inj (c c' : ascii) : chr c = chr c' -> c = c'.
Proof.
  unfold chr; intros E. apply N2Z.inj in E.
  rewrite <- (ascii_N_embedding c), <- (ascii_N_embedding c'). now rewrite E.
Qed.

Lemma handled_key_chr (c : ascii) :
  c <> "a"%char -> c <> "s"%char -> c <> "w"%char -> c <> "d"%char ->
  c <> "q"%char ->
  handled_key (chr c) = false.
Proof.
  intros Ha Hs Hw Hd Hq. pose proof (chr_range c) as Hc.
  unfold handled_key, KEY_LEFT, KEY_DOWN, KEY_UP, KEY_RIGHT.
  repeat match goal with
         | |- context [chr c =? chr ?k] =>
             destruct (Z.eqb_spec (chr c) (chr k)) as [E | _];
             [apply chr_inj in E; contradiction |]
         | |- context [chr c =? ?k] =>
             destruct (Z.eqb_spec (chr c) k) as [E | _]; [lia |]
         end.
  reflexivity.
Qed.

(** The character [get_input] picks from the first line is the first
    character of the file that is not a space or a tab. *)
Lemma first_key_line (f : string) :
  f <> EmptyString ->
  let line := fst (split_line f) in
  char_at line (strspn_blank line) = first_key f.
Proof.
  induction f as [| c f IH]; intros Hne; [contradiction |].
  cbn [split_line first_key].
  destruct (Ascii.eqb c newline) eqn:En.
  - apply Ascii.eqb_eq in En. subst c. reflexivity.
  - destruct f as [| c' f'].
    + cbn. destruct (Ascii.eqb c " " || Ascii.eqb c tab); reflexivity.
    + specialize (IH ltac:(discriminate)). cbn zeta in IH.
      destruct (split_line (String c' f')) as [l rest]. cbn [fst] in *.
      cbn [strspn_blank].
      destruct (Ascii.eqb c " " || Ascii.eqb c tab); [| reflexivity].
      unfold char_at in *. cbn [String.get]. exact IH.
Qed.

Lemma get_input_playback (s : session) (f : string) :
  playfile s = Some f ->
  fst (get_input s) = (if String.eqb f EmptyString then chr "q" else first_key f) /\
  the_game (snd (get_input s)) = the_game s /\
  rand (snd (get_input s)) = rand s /\
  playfile (snd (get_input s)) = Some (snd (split_line f)).
Proof.
  intros Hf. unfold get_input. rewrite Hf.
  destruct f as [| c f'].
  - cbn. auto.
  - pose proof (first_key_line (String c f') ltac:(discriminate)) as Hk.
    cbn zeta in Hk. unfold getline.
    destruct (split_line (String c f')) as [l rest] eqn:El. cbn [fst snd] in *.
    assert (Hl : 0 < Z.of_nat (String.length l)).
    { cbn [split_line] in El. destruct (Ascii.eqb c newline).
      - injection El as <- _. cbn. lia.
      - destruct (split_line f'). injection El as <- _. cbn. lia. }
    destruct (Z.ltb_spec 0 (Z.of_nat (String.length l))); [| lia].
    cbn [String.eqb]. auto.
Qed.

Lemma main_iter_quit (s : session) :
  lose_game (the_game s) = 0 ->
  fst (get_input s) = chr "q" ->
  main_iter s = (Quit, snd (get_input s)).
Proof.
  intros Hl Hk. unfold main_iter. rewrite Hl.
  destruct (get_input s) as [key s']. cbn [fst snd] in *. subst key.
  reflexivity.
Qed.

Lemma main_iter_unhandled (s : session) :
  lose_game (the_game s) = 0 ->
  handled_key (fst (get_input s)) = false ->
  the_game (snd (get_input s)) = the_game s ->
  main_iter s = (Playing, snd (get_input s)).
Proof.
  intros Hl Hk Hg. unfold main_iter. rewrite Hl.
  destruct (get_input s) as [key s']. cbn [fst snd negb Z.eqb] in *.
  unfold handled_key in Hk.
  repeat match type of Hk with
         | (_ || _) = false => apply orb_false_elim in Hk; destruct Hk as [Hk ?]
         end.
  repeat match goal with
         | H : (key =? ?k) = false |- _ => rewrite H; clear H
         end.
  cbn [orb]. unfold main_spawn. rewrite Hg, Z.eqb_refl. reflexivity.
Qed.

Lemma with_game_same (s : session) : with_game s (the_game s) (rand s) = s.
Proof. now destruct s. Qed.

(** ** The program on sample states *)

Example deflate_left_sample : deflate_left [1; 0; 1; 1] = ([1; 1; 1; 0], 1).
Proof. reflexivity. Qed.

Example deflate_left_packed : deflate_left [3; 1; 0; 0] = ([3; 1; 0; 0], 0).
Proof. reflexivity. Qed.

Example combine_left_three :
  combine_left game_sample [1; 1; 1; 0] = (set_score game_sample 2, [2; 0; 1; 0], 1).
Proof. reflexivity. Qed.

Example moves_sample :
  move_left game_sample
  = {| turns := 1; score := 16;
       board := [[2; 3; 0; 0]; [0; 0; 0; 0]; [2; 1; 0; 0]; [4; 0; 0; 0]] |} /\
  move_up game_sample
  = {| turns := 1; score := 2;
       board := [[2; 1; 2; 2]; [0; 3; 1; 1]; [0; 0; 0; 3]; [0; 0; 0; 0]] |} /\
  lose_game game_sample = 0 /\ lose_game game_stuck = 1.
Proof. repeat split; vm_compute; reflexivity. Qed.

Example seed_sample :
  board (the_game (snd (main_seed (with_game stuck_session game_zero rng_sample))))
  = [[0; 0; 1; 2]; [0; 0; 0; 0]; [0; 0; 0; 0]; [0; 0; 0; 0]].
Proof. vm_compute. reflexivity. Qed.

Example replay_sample :
  let run := main_loop 10 (record_to (playback replay_file)) in
  fst run = Quit /\
  recfile (snd run) = Some [(chr "a", 16); (chr "w", 20)] /\
  turns (the_game (snd run)) = 2.
Proof. vm_compute. repeat split; reflexivity. Qed.

(** * The claims *)

(** C1, as stated: the row of ranks [1,1,2,2] becomes [2,3,0,0], but the
    score goes up by 6, not by 12. *)
Lemma score_gain_1122_not_12 :
  ~ (board (move_left (game_row 0 0 0 [1; 1; 2; 2])) !!! O = [2; 3; 0; 0] /\
     score (move_left (game_row 0 0 0 [1; 1; 2; 2]))
     = score (game_row 0 0 0 [1; 1; 2; 2]) + 12).
Proof. vm_compute. intros [_ H]. discriminate H. Qed.

(** C1, amended.  On a game whose row [r] holds the ranks [1,1,2,2]
    (printed 2 2 4 4) and whose other rows are empty, [move_left] leaves
    the ranks [2,3,0,0] (printed 4 8 and two dots) in row [r], adds exactly
    6 = 2 + 4 to the score and 1 to the turns. *)
Theorem move_left_1122 (t s : Z) (r : nat) :
  (r < NROWS)%nat ->
  in_int t -> t < int_max ->
  in_int s -> s + 6 <= int_max ->
  move_left (game_row t s r [1; 1; 2; 2]) = game_row (t + 1) (s + 6) r [2; 3; 0; 0] /\
  map print_tile [1; 1; 2; 2] = [Some 2; Some 2; Some 4; Some 4] /\
  map print_tile [2; 3; 0; 0] = [Some 4; Some 8; None; None].
Proof.
  intros Hr Ht Htmax Hs Hsmax.
  split; [| split; reflexivity].
  assert (Hw : wrap (t + 1) = t + 1)
    by (apply wrap_in_int; unfold in_int, int_min, int_max in *; lia).
  unfold move_left, NROWS in *.
  destruct r as [| [| [| [| r]]]]; try lia;
    erewrite move_left_rows_unroll by reflexivity;
    cbn [score turns game_row];
    rewrite ?row_pass_empty, ?row_pass_1122 by assumption;
    rewrite ?row_pass_empty;
    cbv beta iota zeta; cbn [set_turns turns score board];
    change (Z.lor 0 1) with 1; rewrite Hw; reflexivity.
Qed.

Lemma move_left_1122_witness :
  move_left (game_row 0 0 0 [1; 1; 2; 2]) = game_row (0 + 1) (0 + 6) 0 [2; 3; 0; 0].
Proof.
  apply (move_left_1122 0 0 0); unfold in_int, int_min, int_max, NROWS; simpl; lia.
Defined.

(** C2. On a row of the C type whose ranks and score stay within [int],
    [combine_left] is the left-to-right scan of the specification
    ([merge_pairs]): a nonzero cell equal to its right neighbour is raised
    by one, the neighbour becomes 0, 2^(new rank - 1) is added to the score,
    and the scan resumes after the pair, so the merged pairs are disjoint
    (at most [NCOLS / 2] of them); the returned flag is 1 exactly when the
    scan merged at least once, and nothing but the score changes in the
    game. *)
Theorem combine_left_merges (g : game) (row : list tile) :
  wf_row row ->
  Forall rank_ok row ->
  in_int (score g) ->
  let '(row', gain, n) := merge_pairs row in
  score g + gain <= int_max ->
  combine_left g row = (set_score g (score g + gain), row', of_bool (0 <? n)%nat) /\
  (2 * n <= NCOLS)%nat.
Proof.
  intros H Hr Hs.
  pose proof (combine_cells_merges (score g) row H Hr Hs) as Hc.
  pose proof (merge_pairs_count_le (length row) row (Nat.le_refl _)) as Hn.
  rewrite H in Hn.
  destruct (merge_pairs row) as [[row' gain] n]. cbn [snd] in Hn.
  intros Hmax. split; [| exact Hn].
  rewrite combine_left_cells, (Hc Hmax). reflexivity.
Qed.

Lemma combine_left_merges_witness :
  combine_left game_sample [1; 1; 2; 2]
  = (set_score game_sample (score game_sample + 6), [2; 0; 3; 0], 1).
Proof.
  assert (Hr : Forall rank_ok [1; 1; 2; 2])
    by (repeat constructor; unfold rank_ok; lia).
  assert (Hs : in_int (score game_sample))
    by (unfold in_int, int_min, int_max; simpl; lia).
  assert (Hmax : score game_sample + 6 <= int_max)
    by (unfold int_max; simpl; lia).
  exact (proj1 (combine_left_merges game_sample [1; 1; 2; 2] eq_refl Hr Hs Hmax)).
Defined.

(** C3. Effective-move gating: for every direction, on a game of the C type
    whose turn counter can still be incremented, the move adds exactly 1 to
    [turns] when it changes the board and leaves [turns] as it is when it
    does not. *)
Theorem move_turns_gating (d : direction) (g : game) :
  wf_board (board g) ->
  in_int (turns g) ->
  turns g < int_max ->
  (board (move d g) <> board g -> turns (move d g) = turns g + 1) /\
  (board (move d g) = board g -> turns (move d g) = turns g).
Proof.
  intros Hwf Hint Hmax.
  destruct (move_facts d g Hwf) as (D & Ht & _ & Z0 & N1).
  rewrite Ht. unfold in_int, int_min, int_max in *.
  destruct D as [E | E]; rewrite E in *.
  - destruct (Z0 eq_refl) as [Eb _]. split; [intros Hne; now elim Hne |].
    intros _. rewrite Z.add_0_r. apply wrap_in_int. unfold in_int, int_min, int_max; lia.
  - destruct (N1 eq_refl) as [Hne _]. split; [| intros Eb; now elim Hne].
    intros _. apply wrap_in_int. unfold in_int, int_min, int_max; lia.
Qed.

Lemma move_turns_gating_witness :
  (board (move Up game_sample) <> board game_sample ->
   turns (move Up game_sample) = turns game_sample + 1) /\
  (board (move Up game_sample) = board game_sample ->
   turns (move Up game_sample) = turns game_sample).
Proof.
  apply (move_turns_gating Up game_sample).
  - exact game_sample_wf.
  - unfold in_int, int_min, int_max; simpl; lia.
  - unfold int_max; simpl; lia.
Defined.

(** C4. Soundness of the terminal check: when [lose_game] returns true on a
    game, each of the four moves, applied to that game, leaves its turn
    counter (and its board) unchanged. *)
Theorem lose_game_sound (g : game) :
  wf_board (board g) ->
  lose_game g <> 0 ->
  forall d, turns (move d g) = turns g /\ board (move d g) = board g.
Proof.
  intros Hwf Hlose d.
  destruct (lose_game_rets g Hwf Hlose) as [Hint Hret].
  now rewrite (move_ret_zero d g Hwf Hint (Hret d)).
Qed.

Lemma lose_game_sound_witness :
  lose_game game_stuck <> 0 /\
  turns (move Up game_stuck) = turns game_stuck /\
  board (move Up game_stuck) = board game_stuck.
Proof.
  assert (H : lose_game game_stuck <> 0) by (vm_compute; discriminate).
  split; [exact H |].
  apply (lose_game_sound game_stuck game_stuck_wf H Up).
Defined.

(** C5. An effective move leaves room: on a game of the C type, a move in
    any direction that changes the turn counter ends on a board with an
    empty cell, so the [place_tile] that [main] calls next returns 0, never
    -1, whatever [random()] draws, and the pass through the loop ends back
    at its top. *)
Theorem effective_move_has_empty (d : direction) (g : game) :
  wf_board (board g) ->
  in_int (turns g) ->
  turns (move d g) <> turns g ->
  has_empty (board (move d g)) /\
  (forall rs, fst (fst (place_tile (move d g) rs)) = Returned 0) /\
  (forall s key,
     fst (main_spawn (turns g) key (with_game s (move d g) (rand s))) = Playing).
Proof.
  intros Hwf Hint Hne.
  destruct (move_facts d g Hwf) as (D & Ht & W & _ & N1).
  assert (E : move_ret d g = 1).
  { destruct D as [E | E]; [| assumption].
    exfalso. apply Hne. rewrite Ht, E, Z.add_0_r. now apply wrap_in_int. }
  destruct (N1 E) as [_ He].
  assert (Hplace : forall rs, fst (fst (place_tile (move d g) rs)) = Returned 0).
  { intros rs.
    destruct (place_tile_spawn (move d g) rs W) as (p & _ & _ & _ & Ep).
    - now apply count_zeros_pos.
    - now rewrite Ep. }
  split; [assumption |]. split; [assumption |].
  intros s key. unfold main_spawn. cbn [the_game rand with_game].
  destruct (Z.eqb_spec (turns g) (turns (move d g))) as [E' | _];
    [now elim Hne |].
  cbn [negb]. specialize (Hplace (rand s)).
  destruct (place_tile (move d g) (rand s)) as [[o g'] rs']. cbn [fst] in Hplace.
  now subst o.
Qed.

Lemma effective_move_has_empty_witness :
  turns (move Left game_sample) <> turns game_sample /\
  has_empty (board (move Left game_sample)) /\
  fst (fst (place_tile (move Left game_sample) rng_sample)) = Returned 0.
Proof.
  assert (H : turns (move Left game_sample) <> turns game_sample)
    by (vm_compute; discriminate).
  assert (Hint : in_int (turns game_sample))
    by (unfold in_int, int_min, int_max; simpl; lia).
  split; [exact H |].
  destruct (effective_move_has_empty Left game_sample game_sample_wf Hint H)
    as (He & Hp & _).
  split; [exact He | exact (Hp rng_sample)].
Defined.

(** C6. [place_tile] returns -1 exactly when the board has no empty cell,
    and then changes nothing: board, score, turns and the random stream are
    as before.  Otherwise the first draw [x] gives the index
    [loc = x % num_zeros] among the empty cells, the second draw [y] the
    rank [v] (1 unless [y % 10] is 0, then 2); the call returns 0 and writes
    [v] into the empty cell that has exactly [loc] empty cells before it in
    row-major order, every other cell, the score and the turns unchanged. *)
Theorem place_tile_spec (g : game) (rs : rng) :
  wf_board (board g) ->
  (fst (fst (place_tile g rs)) = Returned (-1) <-> ~ has_empty (board g)) /\
  (~ has_empty (board g) -> place_tile g rs = (Returned (-1), g, rs)) /\
  (has_empty (board g) ->
   let num_zeros := count_zeros (lboard g) in
   let loc := Z.rem (fst (random rs)) num_zeros in
   let y := fst (random (snd (random rs))) in
   let v := if Z.rem y 10 =? 0 then 2 else 1 in
   0 <= loc < num_zeros /\
   exists p,
     (p < NROWS * NCOLS)%nat /\
     lboard g !!! p = 0 /\
     count_zeros (take p (lboard g)) = loc /\
     fst (fst (place_tile g rs)) = Returned 0 /\
     lboard (snd (fst (place_tile g rs))) = <[p := v]> (lboard g) /\
     wf_board (board (snd (fst (place_tile g rs)))) /\
     score (snd (fst (place_tile g rs))) = score g /\
     turns (snd (fst (place_tile g rs))) = turns g /\
     snd (place_tile g rs) = snd (random (snd (random rs)))).
Proof.
  intros Hwf.
  pose proof (count_zeros_pos (lboard g)) as Hpos.
  pose proof (count_zeros_bounds (lboard g)) as Hb.
  change (In 0 (lboard g)) with (has_empty (board g)) in Hpos.
  assert (Hfull : ~ has_empty (board g) -> place_tile g rs = (Returned (-1), g, rs))
    by (intros Hn; now apply place_tile_no_room).
  assert (Hsome :
            has_empty (board g) ->
            exists p,
              (p < NROWS * NCOLS)%nat /\
              lboard g !!! p = 0 /\
              count_zeros (take p (lboard g))
              = Z.rem (fst (random rs)) (count_zeros (lboard g)) /\
              place_tile g rs
              = (Returned 0,
                 set_lboard g p (rank_of_draw (fst (random (snd (random rs))))),
                 snd (random (snd (random rs))))).
  { intros He. apply place_tile_spawn; [assumption | now apply Hpos]. }
  split; [| split].
  - split.
    + intros E He. destruct (Hsome He) as (p & _ & _ & _ & Ep).
      rewrite Ep in E. discriminate E.
    + intros Hn. now rewrite (Hfull Hn).
  - exact Hfull.
  - intros He num_zeros loc y v.
    destruct (Hsome He) as (p & Hp & Hz & Hc & Ep).
    split.
    + subst loc num_zeros. pose proof (random_range rs).
      rewrite Z.rem_mod_nonneg by (apply Hpos in He; lia).
      apply Z.mod_pos_bound. apply Hpos in He; lia.
    + exists p. rewrite Ep. cbn [fst snd].
      destruct (set_lboard_flat g p (rank_of_draw y) Hwf) as [Ef Ew].
      replace v with (rank_of_draw y)
        by (subst v; unfold rank_of_draw; now destruct (Z.rem y 10 =? 0)).
      subst y loc num_zeros.
      split; [assumption |]. split; [assumption |]. split; [assumption |].
      split; [reflexivity |]. split; [assumption |]. split; [assumption |].
      split; [reflexivity |]. split; reflexivity.
Qed.

Lemma place_tile_spec_witness :
  has_empty (board game_sample) /\
  fst (fst (place_tile game_sample rng_sample)) = Returned 0 /\
  fst (fst (place_tile game_stuck rng_sample)) = Returned (-1).
Proof.
  destruct (place_tile_spec game_sample rng_sample game_sample_wf) as (_ & _ & Hs).
  destruct (place_tile_spec game_stuck rng_sample game_stuck_wf) as (_ & Hf & _).
  assert (He : has_empty (board game_sample)) by (vm_compute; tauto).
  assert (Hn : ~ has_empty (board game_stuck)) by (vm_compute; intuition discriminate).
  split; [exact He |]. split.
  - destruct (Hs He) as (_ & p & _ & _ & _ & Er & _). exact Er.
  - now rewrite (Hf Hn).
Defined.

(** C7, as stated: in playback a blank line, or a line with an unknown
    key, does not end the session. *)
Lemma playback_blank_not_quit :
  ~ (fst (main_iter (playback blank_line)) = Quit) /\
  ~ (fst (main_iter (playback unknown_line)) = Quit).
Proof. split; vm_compute; discriminate. Qed.

(** C7, amended.  In playback mode, while the game is not lost:
    the key read is ['q'] when the file is exhausted, and the pass through
    the loop ends at [Quit]; otherwise the key is the first character of the
    file that is neither a space nor a tab (NUL when there is none), so a
    blank line gives the newline character; a key without a [case] in the
    [switch], which is every character other than [a], [s], [w], [d] and
    [q], leaves the game as it is and the session [Playing], the line
    consumed. *)
Theorem playback_input (s : session) (f : string) :
  playfile s = Some f ->
  lose_game (the_game s) = 0 ->
  let key := fst (get_input s) in
  let s' := snd (get_input s) in
  (f = EmptyString -> key = chr "q" /\ main_iter s = (Quit, s')) /\
  (f <> EmptyString -> key = first_key f) /\
  (forall rest, first_key (String newline rest) = chr newline) /\
  (forall c, c <> "a"%char -> c <> "s"%char -> c <> "w"%char -> c <> "d"%char ->
             c <> "q"%char -> handled_key (chr c) = false) /\
  handled_key 0 = false /\
  (handled_key key = false ->
   main_iter s = (Playing, s') /\
   the_game s' = the_game s /\
   playfile s' = Some (snd (split_line f))).
Proof.
  intros Hf Hl key s'.
  destruct (get_input_playback s f Hf) as (Hk & Hg & _ & Hp).
  fold key in Hk. fold s' in Hg, Hp.
  split; [| split; [| split; [| split; [| split]]]].
  - intros ->. cbn [String.eqb] in Hk. split; [exact Hk |].
    now apply main_iter_quit.
  - intros Hne. destruct f; [contradiction | exact Hk].
  - reflexivity.
  - exact handled_key_chr.
  - reflexivity.
  - intros Hu. split; [| split; assumption].
    now apply main_iter_unhandled.
Qed.

Lemma playback_input_witness :
  fst (main_iter (playback blank_line)) = Playing /\
  fst (main_iter (playback EmptyString)) = Quit.
Proof.
  assert (Hl : lose_game game_sample = 0) by (vm_compute; reflexivity).
  destruct (playback_input (playback blank_line) blank_line eq_refl Hl)
    as (_ & _ & _ & _ & _ & Hb).
  destruct (playback_input (playback EmptyString) EmptyString eq_refl Hl)
    as (He & _).
  split.
  - rewrite (proj1 (Hb ltac:(vm_compute; reflexivity))). reflexivity.
  - rewrite (proj2 (He eq_refl)). reflexivity.
Defined.

(** C9. Rotation round trip: on every game whose board is the 4x4 array of
    the C type, four consecutive calls of [rotate_clockwise] give back the
    game they started from, board, score and turns. *)
Theorem rotate_clockwise_four (g : game) :
  wf_board (board g) ->
  rotate_clockwise (rotate_clockwise (rotate_clockwise (rotate_clockwise g))) = g.
Proof.
  intros Hwf.
  change (rotate_n 4 g = g).
  apply game_eq.
  - apply rotate_n_turns.
  - apply rotate_n_score.
  - rewrite rotate_n_board. cbn [rotate_times]. now apply rotate_board_four.
Qed.

Lemma rotate_clockwise_four_witness :
  wf_board (board game_sample) /\
  rotate_clockwise (rotate_clockwise (rotate_clockwise (rotate_clockwise game_sample)))
  = game_sample.
Proof.
  split; [exact game_sample_wf | apply (rotate_clockwise_four game_sample)].
  exact game_sample_wf.
Defined.

(** C10. [rotate_clockwise] writes the board only: the score and the turn
    counter of every game are what they were before the call.  Hence the
    rotations around [move_left] in [move_right], [move_up] and [move_down]
    add nothing to either: each move ends with the score and the turns that
    [move_left] computed on the rotated game. *)
Theorem rotate_clockwise_frame (g : game) :
  (score (rotate_clockwise g) = score g /\ turns (rotate_clockwise g) = turns g) /\
  forall d,
    score (move d g) = score (move_left (turned d g)) /\
    turns (move d g) = turns (move_left (turned d g)) /\
    score (turned d g) = score g /\ turns (turned d g) = turns g.
Proof.
  split.
  - split; [apply rotate_clockwise_score | apply rotate_clockwise_turns].
  - intros d. rewrite move_eq, rotate_n_score, rotate_n_turns, turned_eq.
    rewrite rotate_n_score, rotate_n_turns. auto.
Qed.

(** * Further properties: lemmas *)

(** ** Rows *)

Ltac run_rows :=
  cbv beta iota zeta delta
    [row_pass deflate_left combine_left combine_cells for_range for_from
     NCOLS NROWS Nat.sub lookup_total list_lookup_total insert list_insert
     replicate negb andb of_bool set_score score turns board fst snd
     packed List.filter app count_zeros rev total slide_left game_zero].

Ltac by_rows := repeat (run_rows; split_eqb); run_rows.

Ltac by_rows_ok := repeat (run_rows; raise_ranks; split_eqb); run_rows; raise_ranks.

Lemma tile_value_0 : tile_value 0 = 0.
Proof. reflexivity. Qed.

Lemma tile_value_nonneg (x : tile) : 0 <= tile_value x.
Proof.
  unfold tile_value. destruct (x =? 0); [lia |].
  apply Z.pow_nonneg. lia.
Qed.

Lemma tile_value_raise (a : tile) :
  rank_ok a -> a <> 0 -> tile_value (a + 1) = 2 * tile_value a.
Proof.
  unfold rank_ok, tile_value; intros H Ha.
  destruct (Z.eqb_spec (a + 1) 0); [lia |].
  destruct (Z.eqb_spec a 0); [contradiction |].
  rewrite Z.pow_add_r by lia. lia.
Qed.

Lemma tile_value_gain (a : tile) :
  rank_ok a -> a <> 0 -> 2 ^ (a + 1 - 1) = tile_value a.
Proof.
  unfold tile_value; intros H Ha.
  destruct (Z.eqb_spec a 0); [contradiction |].
  f_equal. lia.
Qed.

Ltac cell_ranks :=
  repeat match goal with
         | H : Forall _ (_ :: _) |- _ => apply Forall_cons in H; destruct H
         end;
  repeat match goal with
         | H : rank_ok ?x |- _ =>
             lazymatch goal with
             | _ : 0 <= tile_value x |- _ => fail
             | _ => pose proof (tile_value_nonneg x);
                    pose proof (H : 0 <= x <= 30)
             end
         end.

Lemma total_app (l l' : list tile) : total (l ++ l') = total l + total l'.
Proof. induction l as [| x l IH]; cbn [app total]; lia. Qed.

Lemma total_nonneg (l : list tile) : 0 <= total l.
Proof.
  induction l as [| x l IH]; cbn [total]; [lia |].
  pose proof (tile_value_nonneg x). lia.
Qed.

Lemma count_zeros_app (l l' : list tile) :
  count_zeros (l ++ l') = count_zeros l + count_zeros l'.
Proof. induction l as [| x l IH]; cbn [app count_zeros]; lia. Qed.

(** The row a pass leaves does not depend on the score or the flag it
    starts from. *)
Lemma combine_cells_row (s s' : Z) (row : list tile) :
  snd (fst (combine_cells s row)) = snd (fst (combine_cells s' row)) /\
  snd (combine_cells s row) = snd (combine_cells s' row).
Proof.
  unfold combine_cells, for_range; cbn [Nat.sub NCOLS NROWS for_from].
  repeat match goal with
         | |- context [if ?b then _ else _] => destruct b
         end; split; reflexivity.
Qed.

Lemma row_pass_slide (s ret : Z) (row : list tile) :
  snd (row_pass s ret row) = slide_left row.
Proof.
  unfold row_pass, slide_left.
  destruct (deflate_left row) as [r1 d1].
  rewrite combine_left_cells. cbn [score game_zero].
  destruct (combine_cells_row s 0 r1) as [Er _].
  destruct (combine_cells s r1) as [[s1 r2] c].
  destruct (combine_cells 0 r1) as [[s1' r2'] c'].
  cbn [fst snd] in *. subst r2'.
  destruct (deflate_left r2) as [r3 d2]. reflexivity.
Qed.

Lemma row_pass_flag (s s' : Z) (row : list tile) :
  snd (fst (row_pass s 0 row)) = snd (fst (row_pass s' 0 row)).
Proof.
  unfold row_pass.
  destruct (deflate_left row) as [r1 d1].
  destruct (combine_cells_row s s' r1) as [Er Ed].
  destruct (combine_cells s r1) as [[s1 r2] c].
  destruct (combine_cells s' r1) as [[s1' r2'] c'].
  cbn [fst snd] in *. subst r2' c'.
  destruct (deflate_left r2) as [r3 d2]. reflexivity.
Qed.

(** What a pass does to a row of any contents: it leaves the tiles packed
    to the left, and no fewer empty cells than it found. *)
Lemma row_pass_shape (s : Z) (row : list tile) :
  wf_row row ->
  let row' := snd (row_pass s 0 row) in
  wf_row row' /\ packed row' = row' /\ count_zeros row <= count_zeros row'.
Proof.
  intros H. four_cells row H.
  by_rows; repeat split; first [reflexivity | lia].
Qed.

(** On ranks that can be raised, a pass keeps the sum of the numbers. *)
Lemma row_pass_total (s : Z) (row : list tile) :
  wf_row row ->
  Forall rank_ok row ->
  total (snd (row_pass s 0 row)) = total row.
Proof.
  intros H Hr. four_cells row H. cell_ranks.
  by_rows_ok;
    rewrite ?tile_value_raise by assumption;
    rewrite ?tile_value_0 in *; lia.
Qed.

(** The score a pass adds is at least 0 and at most half the sum of the
    numbers of the row. *)
Lemma row_pass_gain (s : Z) (row : list tile) :
  wf_row row ->
  Forall rank_ok row ->
  in_int s ->
  s + total row <= int_max ->
  let s' := fst (fst (row_pass s 0 row)) in
  s <= s' /\ 2 * (s' - s) <= total row.
Proof.
  intros H Hr Hs. four_cells row H. cell_ranks.
  unfold in_int, int_min, int_max in *.
  by_rows_ok;
    intros Hmax;
    rewrite ?tile_value_gain by assumption;
    rewrite ?tile_value_0 in *;
    repeat match goal with
           | |- context [wrap ?z] =>
               rewrite (wrap_in_int z) by (unfold in_int, int_min, int_max; lia)
           end;
    lia.
Qed.

(** ** The board after [move_left] *)

(** [move_left] row by row: each row goes through its own pass, the score
    handed from one row to the next. *)
Lemma move_left_by_rows (g : game) (r0 r1 r2 r3 : list tile) :
  board g = [r0; r1; r2; r3] ->
  exists s0 s1 s2 s3 f0 f1 f2 f3,
    fst (row_pass (score g) 0 r0) = (s0, f0) /\
    fst (row_pass s0 0 r1) = (s1, f1) /\
    fst (row_pass s1 0 r2) = (s2, f2) /\
    fst (row_pass s2 0 r3) = (s3, f3) /\
    move_left_rows g
    = ({| turns := turns g; score := s3;
          board := [slide_left r0; slide_left r1; slide_left r2; slide_left r3] |},
       Z.lor (Z.lor (Z.lor f0 f1) f2) f3).
Proof.
  intros Hb. rewrite (move_left_rows_unroll g r0 r1 r2 r3 Hb).
  pose proof (row_pass_slide (score g) 0 r0) as Q0.
  destruct (row_pass (score g) 0 r0) as [[s0 f0] q0] eqn:E0.
  rewrite (row_pass_ret s0 f0 r1).
  pose proof (row_pass_slide s0 0 r1) as Q1.
  destruct (row_pass s0 0 r1) as [[s1 f1] q1] eqn:E1.
  rewrite (row_pass_ret s1 _ r2).
  pose proof (row_pass_slide s1 0 r2) as Q2.
  destruct (row_pass s1 0 r2) as [[s2 f2] q2] eqn:E2.
  rewrite (row_pass_ret s2 _ r3).
  pose proof (row_pass_slide s2 0 r3) as Q3.
  destruct (row_pass s2 0 r3) as [[s3 f3] q3] eqn:E3.
  cbn [fst snd] in *. subst q0 q1 q2 q3.
  exists s0, s1, s2, s3, f0, f1, f2, f3.
  rewrite E1, E2, E3. repeat split; reflexivity.
Qed.

Lemma move_left_board (g : game) :
  wf_board (board g) ->
  board (move_left g) = map slide_left (board g).
Proof.
  intros Hwf.
  destruct (wf_board_rows _ Hwf) as (r0 & r1 & r2 & r3 & Hb & _).
  destruct (move_left_by_rows g r0 r1 r2 r3 Hb)
    as (s0 & s1 & s2 & s3 & f0 & f1 & f2 & f3 & _ & _ & _ & _ & E).
  unfold move_left. rewrite E, Hb. reflexivity.
Qed.

Lemma slide_left_shape (row : list tile) :
  wf_row row ->
  wf_row (slide_left row) /\ packed (slide_left row) = slide_left row /\
  count_zeros row <= count_zeros (slide_left row).
Proof.
  intros H. rewrite <- (row_pass_slide 0 0 row). now apply row_pass_shape.
Qed.

Lemma slide_left_total (row : list tile) :
  wf_row row -> Forall rank_ok row -> total (slide_left row) = total row.
Proof.
  intros H Hr. rewrite <- (row_pass_slide 0 0 row). now apply row_pass_total.
Qed.

Lemma board_rows_app (r0 r1 r2 r3 : list tile) :
  mjoin [r0; r1; r2; r3] = r0 ++ r1 ++ r2 ++ r3.
Proof. cbn. now rewrite app_nil_r. Qed.

Lemma move_left_zeros (g : game) :
  wf_board (board g) ->
  count_zeros (lboard g) <= count_zeros (lboard (move_left g)).
Proof.
  intros Hwf. unfold lboard. rewrite (move_left_board g Hwf).
  destruct (wf_board_rows _ Hwf) as (r0 & r1 & r2 & r3 & -> & H0 & H1 & H2 & H3).
  cbn [map]. rewrite !board_rows_app, !count_zeros_app.
  pose proof (slide_left_shape r0 H0). pose proof (slide_left_shape r1 H1).
  pose proof (slide_left_shape r2 H2). pose proof (slide_left_shape r3 H3).
  lia.
Qed.

Lemma ranks_ok_rows (r0 r1 r2 r3 : list tile) :
  ranks_ok [r0; r1; r2; r3] ->
  Forall rank_ok r0 /\ Forall rank_ok r1 /\ Forall rank_ok r2 /\ Forall rank_ok r3.
Proof.
  unfold ranks_ok. rewrite board_rows_app, !Forall_app. tauto.
Qed.

Lemma move_left_total (g : game) :
  wf_board (board g) ->
  ranks_ok (board g) ->
  board_total (board (move_left g)) = board_total (board g).
Proof.
  intros Hwf Hr. unfold board_total. rewrite (move_left_board g Hwf).
  destruct (wf_board_rows _ Hwf) as (r0 & r1 & r2 & r3 & Hb & H0 & H1 & H2 & H3).
  rewrite Hb in *. destruct (ranks_ok_rows _ _ _ _ Hr) as (K0 & K1 & K2 & K3).
  cbn [map]. rewrite !board_rows_app, !total_app.
  now rewrite !slide_left_total.
Qed.

Lemma move_left_gain (g : game) :
  wf_board (board g) ->
  ranks_ok (board g) ->
  in_int (score g) ->
  score g + board_total (board g) <= int_max ->
  score g <= score (move_left g) /\
  2 * (score (move_left g) - score g) <= board_total (board g).
Proof.
  intros Hwf Hr Hs Hmax. unfold board_total in *.
  destruct (wf_board_rows _ Hwf) as (r0 & r1 & r2 & r3 & Hb & H0 & H1 & H2 & H3).
  destruct (move_left_by_rows g r0 r1 r2 r3 Hb)
    as (s0 & s1 & s2 & s3 & f0 & f1 & f2 & f3 & E0 & E1 & E2 & E3 & E).
  unfold move_left. rewrite E. cbn [score set_turns].
  rewrite Hb in *. destruct (ranks_ok_rows _ _ _ _ Hr) as (K0 & K1 & K2 & K3).
  rewrite board_rows_app, !total_app in *.
  pose proof (total_nonneg r0). pose proof (total_nonneg r1).
  pose proof (total_nonneg r2). pose proof (total_nonneg r3).
  unfold in_int, int_min, int_max in *.
  pose proof (row_pass_gain (score g) r0 H0 K0) as G0.
  rewrite E0 in G0. cbn [fst] in G0.
  specialize (G0 ltac:(unfold in_int, int_min, int_max; lia)
                 ltac:(unfold int_max; lia)).
  pose proof (row_pass_gain s0 r1 H1 K1) as G1.
  rewrite E1 in G1. cbn [fst] in G1.
  specialize (G1 ltac:(unfold in_int, int_min, int_max; lia)
                 ltac:(unfold int_max; lia)).
  pose proof (row_pass_gain s1 r2 H2 K2) as G2.
  rewrite E2 in G2. cbn [fst] in G2.
  specialize (G2 ltac:(unfold in_int, int_min, int_max; lia)
                 ltac:(unfold int_max; lia)).
  pose proof (row_pass_gain s2 r3 H3 K3) as G3.
  rewrite E3 in G3. cbn [fst] in G3.
  specialize (G3 ltac:(unfold in_int, int_min, int_max; lia)
                 ltac:(unfold int_max; lia)).
  lia.
Qed.

(** ** Rotation and the other three moves *)

Lemma rotate_board_zeros (b : list (list tile)) :
  wf_board b -> count_zeros (mjoin (rotate_board b)) = count_zeros (mjoin b).
Proof.
  intros H. board_cells b H. rewrite rotate_board_cells.
  cbn [mjoin list_join app count_zeros]. lia.
Qed.

Lemma rotate_board_total (b : list (list tile)) :
  wf_board b -> board_total (rotate_board b) = board_total b.
Proof.
  intros H. board_cells b H. rewrite rotate_board_cells.
  unfold board_total. cbn [mjoin list_join app total]. lia.
Qed.

Lemma rotate_board_ranks (b : list (list tile)) :
  wf_board b -> ranks_ok b -> ranks_ok (rotate_board b).
Proof.
  intros H. board_cells b H. rewrite rotate_board_cells.
  unfold ranks_ok. cbn [mjoin list_join app].
  rewrite !Forall_cons. tauto.
Qed.

Lemma rotate_times_zeros (k : nat) (b : list (list tile)) :
  wf_board b -> count_zeros (mjoin (rotate_times k b)) = count_zeros (mjoin b).
Proof.
  intros H; induction k as [| k IH]; cbn [rotate_times]; [reflexivity |].
  rewrite rotate_board_zeros by (now apply rotate_iter_wf). exact IH.
Qed.

Lemma rotate_times_total (k : nat) (b : list (list tile)) :
  wf_board b -> board_total (rotate_times k b) = board_total b.
Proof.
  intros H; induction k as [| k IH]; cbn [rotate_times]; [reflexivity |].
  rewrite rotate_board_total by (now apply rotate_iter_wf). exact IH.
Qed.

Lemma rotate_times_ranks (k : nat) (b : list (list tile)) :
  wf_board b -> ranks_ok b -> ranks_ok (rotate_times k b).
Proof.
  intros H Hr; induction k as [| k IH]; cbn [rotate_times]; [assumption |].
  apply rotate_board_ranks; [now apply rotate_iter_wf | exact IH].
Qed.

Lemma turned_wf (d : direction) (g : game) :
  wf_board (board g) -> wf_board (board (turned d g)).
Proof.
  intros H. rewrite turned_eq, rotate_n_board. now apply rotate_iter_wf.
Qed.

Lemma move_left_wf (g : game) :
  wf_board (board g) -> wf_board (board (move_left g)).
Proof. intros H. now destruct (move_left_facts g H) as (_ & _ & W & _). Qed.

Lemma move_zeros (d : direction) (g : game) :
  wf_board (board g) ->
  count_zeros (lboard g) <= count_zeros (lboard (move d g)).
Proof.
  intros Hwf. pose proof (turned_wf d g Hwf) as W1.
  pose proof (move_left_zeros (turned d g) W1) as Hz.
  unfold lboard in *.
  rewrite move_eq, rotate_n_board, rotate_times_zeros by (now apply move_left_wf).
  rewrite turned_eq, rotate_n_board, rotate_times_zeros in Hz by assumption.
  rewrite turned_eq. exact Hz.
Qed.

Lemma move_total (d : direction) (g : game) :
  wf_board (board g) ->
  ranks_ok (board g) ->
  board_total (board (move d g)) = board_total (board g).
Proof.
  intros Hwf Hr. pose proof (turned_wf d g Hwf) as W1.
  assert (R1 : ranks_ok (board (turned d g)))
    by (rewrite turned_eq, rotate_n_board; now apply rotate_times_ranks).
  rewrite move_eq, rotate_n_board, rotate_times_total by (now apply move_left_wf).
  rewrite (move_left_total _ W1 R1).
  rewrite turned_eq, rotate_n_board. now apply rotate_times_total.
Qed.

Lemma move_gain (d : direction) (g : game) :
  wf_board (board g) ->
  ranks_ok (board g) ->
  in_int (score g) ->
  score g + board_total (board g) <= int_max ->
  score g <= score (move d g) /\
  2 * (score (move d g) - score g) <= board_total (board g).
Proof.
  intros Hwf Hr Hs Hmax. pose proof (turned_wf d g Hwf) as W1.
  assert (R1 : ranks_ok (board (turned d g)))
    by (rewrite turned_eq, rotate_n_board; now apply rotate_times_ranks).
  assert (T1 : board_total (board (turned d g)) = board_total (board g))
    by (rewrite turned_eq, rotate_n_board; now apply rotate_times_total).
  assert (S1 : score (turned d g) = score g)
    by (rewrite turned_eq; apply rotate_n_score).
  rewrite move_eq, rotate_n_score.
  rewrite <- T1, <- S1 in *.
  now apply move_left_gain.
Qed.

(** ** Terminal boards *)

(** A row on which neither a left nor a right move does anything is empty,
    or full without two equal neighbours. *)
Lemma row_still (a b c d : tile) :
  row_flag [a; b; c; d] = 0 /\ row_flag [d; c; b; a] = 0 <->
  (a = 0 /\ b = 0 /\ c = 0 /\ d = 0) \/
  (a <> 0 /\ b <> 0 /\ c <> 0 /\ d <> 0 /\ a <> b /\ b <> c /\ c <> d).
Proof.
  unfold row_flag.
  by_rows; cbv [Z.lor Pos.lor]; lia.
Qed.

Lemma move_left_ret_rows (g : game) (r0 r1 r2 r3 : list tile) :
  board g = [r0; r1; r2; r3] ->
  snd (move_left_rows g) = 0 <->
  row_flag r0 = 0 /\ row_flag r1 = 0 /\ row_flag r2 = 0 /\ row_flag r3 = 0.
Proof.
  intros Hb.
  destruct (move_left_by_rows g r0 r1 r2 r3 Hb)
    as (s0 & s1 & s2 & s3 & f0 & f1 & f2 & f3 & E0 & E1 & E2 & E3 & E).
  rewrite E. cbn [snd]. unfold row_flag.
  rewrite (row_pass_flag 0 (score g) r0), (row_pass_flag 0 s0 r1),
    (row_pass_flag 0 s1 r2), (row_pass_flag 0 s2 r3), E0, E1, E2, E3.
  cbn [snd]. rewrite !Z.lor_eq_0_iff. tauto.
Qed.

Lemma lose_game_iff_rets (g : game) :
  wf_board (board g) ->
  in_int (turns g) ->
  lose_game g <> 0 <-> forall d, move_ret d g = 0.
Proof.
  intros Hwf Hint. split.
  - intros Hl. now destruct (lose_game_rets g Hwf Hl).
  - intros Hret. rewrite lose_game_moves.
    rewrite (move_ret_zero Left g Hwf Hint (Hret Left)).
    rewrite (move_ret_zero Up g Hwf Hint (Hret Up)).
    rewrite (move_ret_zero Down g Hwf Hint (Hret Down)).
    rewrite (move_ret_zero Right g Hwf Hint (Hret Right)).
    rewrite Z.eqb_refl. discriminate.
Qed.

Lemma all_rets_cells (g : game)
      (a0 a1 a2 a3 b0 b1 b2 b3 c0 c1 c2 c3 d0 d1 d2 d3 : tile) :
  board g
  = [[a0; a1; a2; a3]; [b0; b1; b2; b3]; [c0; c1; c2; c3]; [d0; d1; d2; d3]] ->
  (forall d, move_ret d g = 0) <->
  ((row_flag [a0; a1; a2; a3] = 0 /\ row_flag [a3; a2; a1; a0] = 0) /\
   (row_flag [b0; b1; b2; b3] = 0 /\ row_flag [b3; b2; b1; b0] = 0) /\
   (row_flag [c0; c1; c2; c3] = 0 /\ row_flag [c3; c2; c1; c0] = 0) /\
   (row_flag [d0; d1; d2; d3] = 0 /\ row_flag [d3; d2; d1; d0] = 0)) /\
  ((row_flag [a0; b0; c0; d0] = 0 /\ row_flag [d0; c0; b0; a0] = 0) /\
   (row_flag [a1; b1; c1; d1] = 0 /\ row_flag [d1; c1; b1; a1] = 0) /\
   (row_flag [a2; b2; c2; d2] = 0 /\ row_flag [d2; c2; b2; a2] = 0) /\
   (row_flag [a3; b3; c3; d3] = 0 /\ row_flag [d3; c3; b3; a3] = 0)).
Proof.
  intros Hb.
  assert (EL : move_ret Left g = 0 <->
               row_flag [a0; a1; a2; a3] = 0 /\ row_flag [b0; b1; b2; b3] = 0 /\
               row_flag [c0; c1; c2; c3] = 0 /\ row_flag [d0; d1; d2; d3] = 0).
  { unfold move_ret. apply move_left_ret_rows. exact Hb. }
  assert (ER : move_ret Right g = 0 <->
               row_flag [d3; d2; d1; d0] = 0 /\ row_flag [c3; c2; c1; c0] = 0 /\
               row_flag [b3; b2; b1; b0] = 0 /\ row_flag [a3; a2; a1; a0] = 0).
  { unfold move_ret. apply move_left_ret_rows.
    rewrite turned_eq, rotate_n_board, Hb. cbn [turns_before rotate_times].
    now rewrite !rotate_board_cells. }
  assert (EU : move_ret Up g = 0 <->
               row_flag [a3; b3; c3; d3] = 0 /\ row_flag [a2; b2; c2; d2] = 0 /\
               row_flag [a1; b1; c1; d1] = 0 /\ row_flag [a0; b0; c0; d0] = 0).
  { unfold move_ret. apply move_left_ret_rows.
    rewrite turned_eq, rotate_n_board, Hb. cbn [turns_before rotate_times].
    now rewrite !rotate_board_cells. }
  assert (ED : move_ret Down g = 0 <->
               row_flag [d0; c0; b0; a0] = 0 /\ row_flag [d1; c1; b1; a1] = 0 /\
               row_flag [d2; c2; b2; a2] = 0 /\ row_flag [d3; c3; b3; a3] = 0).
  { unfold move_ret. apply move_left_ret_rows.
    rewrite turned_eq, rotate_n_board, Hb. cbn [turns_before rotate_times].
    now rewrite !rotate_board_cells. }
  split.
  - intros H. pose proof (proj1 EL (H Left)). pose proof (proj1 ER (H Right)).
    pose proof (proj1 EU (H Up)). pose proof (proj1 ED (H Down)). tauto.
  - intros H []; [apply EL | apply ER | apply EU | apply ED]; tauto.
Qed.

Lemma terminal_cells (a0 a1 a2 a3 b0 b1 b2 b3 c0 c1 c2 c3 d0 d1 d2 d3 : tile) :
  let b := [[a0; a1; a2; a3]; [b0; b1; b2; b3]; [c0; c1; c2; c3]; [d0; d1; d2; d3]] in
  (empty_board b <->
   a0 = 0 /\ a1 = 0 /\ a2 = 0 /\ a3 = 0 /\ b0 = 0 /\ b1 = 0 /\ b2 = 0 /\ b3 = 0 /\
   c0 = 0 /\ c1 = 0 /\ c2 = 0 /\ c3 = 0 /\ d0 = 0 /\ d1 = 0 /\ d2 = 0 /\ d3 = 0) /\
  (stuck_board b <->
   (a0 <> 0 /\ a1 <> 0 /\ a2 <> 0 /\ a3 <> 0 /\ b0 <> 0 /\ b1 <> 0 /\ b2 <> 0 /\
    b3 <> 0 /\ c0 <> 0 /\ c1 <> 0 /\ c2 <> 0 /\ c3 <> 0 /\ d0 <> 0 /\ d1 <> 0 /\
    d2 <> 0 /\ d3 <> 0) /\
   (a0 <> a1 /\ a1 <> a2 /\ a2 <> a3 /\ b0 <> b1 /\ b1 <> b2 /\ b2 <> b3 /\
    c0 <> c1 /\ c1 <> c2 /\ c2 <> c3 /\ d0 <> d1 /\ d1 <> d2 /\ d2 <> d3) /\
   (a0 <> b0 /\ b0 <> c0 /\ c0 <> d0 /\ a1 <> b1 /\ b1 <> c1 /\ c1 <> d1 /\
    a2 <> b2 /\ b2 <> c2 /\ c2 <> d2 /\ a3 <> b3 /\ b3 <> c3 /\ c3 <> d3)).
Proof.
  intros b; subst b. unfold empty_board, stuck_board, columns, column.
  cbn [mjoin list_join app map seq NROWS NCOLS cell lookup_total list_lookup_total].
  rewrite !Forall_cons, !Forall_nil. cbn [no_equal_pair]. tauto.
Qed.

(** ** Rotation, cell by cell *)

Lemma rotate_board_cell (b : list (list tile)) (r c : nat) :
  wf_board b -> (r < NROWS)%nat -> (c < NCOLS)%nat ->
  cell (rotate_board b) r c = cell b (NCOLS - 1 - c) r.
Proof.
  intros H Hr Hc. board_cells b H. rewrite rotate_board_cells.
  unfold NCOLS, NROWS in *.
  destruct r as [| [| [| [| r]]]]; try lia;
    destruct c as [| [| [| [| c]]]]; try lia; reflexivity.
Qed.

Lemma rotate_board_twice (b : list (list tile)) :
  wf_board b -> rotate_board (rotate_board b) = rev (map (@rev tile) b).
Proof.
  intros H. board_cells b H. now rewrite !rotate_board_cells.
Qed.

Lemma move_right_board (g : game) :
  wf_board (board g) ->
  board (move_right g) = map (fun row => rev (slide_left (rev row))) (board g).
Proof.
  intros Hwf. unfold move_right.
  assert (W2 : wf_board (board (rotate_clockwise (rotate_clockwise g)))).
  { rewrite !rotate_clockwise_board. now apply rotate_board_wf, rotate_board_wf. }
  rewrite !rotate_clockwise_board.
  rewrite rotate_board_twice by (now apply move_left_wf).
  rewrite (move_left_board _ W2), !rotate_clockwise_board.
  rewrite rotate_board_twice by assumption.
  rewrite !List.map_rev, rev_involutive, !List.map_map. reflexivity.
Qed.

(** ** [place_tile], case by case *)

Lemma count_zeros_insert (l : list tile) :
  forall p v,
    (p < length l)%nat -> l !!! p = 0 -> v <> 0 ->
    count_zeros (<[p := v]> l) = count_zeros l - 1.
Proof.
  induction l as [| x l IH]; intros p v Hp Hz Hv; [cbn in Hp; lia |].
  destruct p as [| p].
  - change (<[O := v]> (x :: l)) with (v :: l).
    change ((x :: l) !!! O) with x in Hz. subst x. cbn [count_zeros Z.eqb].
    destruct (Z.eqb_spec v 0); [contradiction | lia].
  - change (<[Datatypes.S p := v]> (x :: l)) with (x :: <[p := v]> l).
    change ((x :: l) !!! Datatypes.S p) with (l !!! p) in Hz.
    cbn [count_zeros].
    rewrite (IH p v ltac:(cbn in Hp; lia) Hz Hv). lia.
Qed.

Lemma total_insert (l : list tile) :
  forall p v,
    (p < length l)%nat -> l !!! p = 0 ->
    total (<[p := v]> l) = total l + tile_value v.
Proof.
  induction l as [| x l IH]; intros p v Hp Hz; [cbn in Hp; lia |].
  destruct p as [| p].
  - change (<[O := v]> (x :: l)) with (v :: l).
    change ((x :: l) !!! O) with x in Hz. subst x. cbn [total].
    rewrite tile_value_0. lia.
  - change (<[Datatypes.S p := v]> (x :: l)) with (x :: <[p := v]> l).
    change ((x :: l) !!! Datatypes.S p) with (l !!! p) in Hz.
    cbn [total].
    rewrite (IH p v ltac:(cbn in Hp; lia) Hz). lia.
Qed.

(** The two ways [place_tile] ends on a 4x4 board. *)
Lemma place_tile_cases (g : game) (rs : rng) :
  wf_board (board g) ->
  (~ has_empty (board g) /\ place_tile g rs = (Returned (-1), g, rs)) \/
  (has_empty (board g) /\
   exists p v,
     (v = 1 \/ v = 2) /\ (p < NROWS * NCOLS)%nat /\ lboard g !!! p = 0 /\
     place_tile g rs = (Returned 0, set_lboard g p v, snd (random (snd (random rs))))).
Proof.
  intros Hwf.
  pose proof (count_zeros_bounds (lboard g)) as Hb.
  pose proof (count_zeros_pos (lboard g)) as Hpos.
  destruct (Z.eq_dec (count_zeros (lboard g)) 0) as [E | E].
  - left. assert (Hn : ~ has_empty (board g)).
    { unfold has_empty. fold (lboard g). rewrite Hpos. lia. }
    split; [exact Hn | now apply place_tile_no_room].
  - right. assert (He : has_empty (board g)).
    { unfold has_empty. fold (lboard g). apply Hpos. lia. }
    split; [exact He |].
    destruct (place_tile_spawn g rs Hwf ltac:(lia)) as (p & Hp & Hz & _ & Ep).
    exists p, (rank_of_draw (fst (random (snd (random rs))))).
    split; [| auto].
    unfold rank_of_draw. destruct (negb _); auto.
Qed.

Lemma set_lboard_effect (g : game) (p : nat) (v : tile) :
  wf_board (board g) ->
  (p < NROWS * NCOLS)%nat -> lboard g !!! p = 0 -> (v = 1 \/ v = 2) ->
  let g' := set_lboard g p v in
  wf_board (board g') /\ turns g' = turns g /\ score g' = score g /\
  count_zeros (lboard g') = count_zeros (lboard g) - 1 /\
  board_total (board g') = board_total (board g) + 2 ^ v.
Proof.
  intros Hwf Hp Hz Hv g'.
  destruct (set_lboard_flat g p v Hwf) as [Ef Ew]. fold g' in Ef, Ew.
  rewrite <- (lboard_length g Hwf) in Hp.
  split; [exact Ew |]. split; [reflexivity |]. split; [reflexivity |].
  unfold board_total. fold (lboard g') (lboard g). rewrite Ef. split.
  - apply count_zeros_insert; [assumption | assumption | lia].
  - rewrite total_insert by assumption. f_equal.
    destruct Hv as [-> | ->]; reflexivity.
Qed.

(** ** One pass through the loop *)

Lemma get_input_frame (s : session) :
  the_game (snd (get_input s)) = the_game s /\
  rand (snd (get_input s)) = rand s /\
  recfile (snd (get_input s)) = recfile s.
Proof.
  unfold get_input. destruct (playfile s) as [f |].
  - destruct (getline f) as [[n line] rest]. cbn. auto.
  - cbn. auto.
Qed.

(** The [switch] of [main], by the move the key stands for. *)
Lemma main_iter_by_key (s : session) :
  lose_game (the_game s) = 0 ->
  let key := fst (get_input s) in
  let s1 := snd (get_input s) in
  main_iter s =
  match key_move key with
  | Some d =>
      main_spawn (turns (the_game s)) key
        (with_game s1 (move d (the_game s1)) (rand s1))
  | None =>
      if key =? chr "q" then (Quit, s1)
      else main_spawn (turns (the_game s)) key s1
  end.
Proof.
  intros Hl key s1. subst key s1. unfold main_iter, key_move. rewrite Hl.
  destruct (get_input s) as [key s1]. cbn [fst snd negb Z.eqb].
  repeat match goal with
         | |- context [if ?b then _ else _] => destruct b; try reflexivity
         end.
Qed.

Lemma main_iter_lost (s : session) :
  lose_game (the_game s) <> 0 -> main_iter s = (Lost, s).
Proof.
  intros Hl. unfold main_iter.
  destruct (Z.eqb_spec (lose_game (the_game s)) 0); [contradiction | reflexivity].
Qed.

Lemma record_frame (key : Z) (s : session) :
  the_game (record key s) = the_game s /\ rand (record key s) = rand s /\
  playfile (record key s) = playfile s.
Proof. unfold record. destruct (recfile s); cbn; auto. Qed.

(** The spawn step on a 4x4 board: never an abort; the game afterwards is
    the game before or that game with one tile more. *)
Lemma main_spawn_cases (last_turn key : Z) (s : session) :
  wf_board (board (the_game s)) ->
  let g := the_game s in
  (last_turn = turns g /\ main_spawn last_turn key s = (Playing, s)) \/
  (last_turn <> turns g /\ ~ has_empty (board g) /\
   main_spawn last_turn key s = (Playing, record key s)) \/
  (last_turn <> turns g /\ has_empty (board g) /\
   exists p v rs',
     (v = 1 \/ v = 2) /\ (p < NROWS * NCOLS)%nat /\ lboard g !!! p = 0 /\
     main_spawn last_turn key s
     = (Playing, record key (with_game s (set_lboard g p v) rs'))).
Proof.
  intros Hwf g. unfold main_spawn. fold g.
  destruct (Z.eqb_spec last_turn (turns g)) as [E | E]; [left; auto | right].
  cbn [negb].
  destruct (place_tile_cases g (rand s) Hwf)
    as [[Hn Ep] | (He & p & v & Hv & Hp & Hz & Ep)]; rewrite Ep.
  - left. subst g. rewrite with_game_same. auto.
  - right. split; [assumption |]. split; [assumption |].
    exists p, v, (snd (random (snd (random (rand s))))). auto.
Qed.

Lemma main_spawn_ok (last_turn key : Z) (s : session) :
  session_ok s ->
  fst (main_spawn last_turn key s) = Playing /\
  session_ok (snd (main_spawn last_turn key s)) /\
  turns (the_game (snd (main_spawn last_turn key s))) = turns (the_game s) /\
  score (the_game (snd (main_spawn last_turn key s))) = score (the_game s).
Proof.
  intros [Hwf Hint].
  destruct (main_spawn_cases last_turn key s Hwf)
    as [[_ E] | [(_ & _ & E) | (_ & _ & p & v & rs' & Hv & Hp & Hz & E)]];
    rewrite E; cbn [fst snd]; unfold session_ok.
  - auto.
  - destruct (record_frame key s) as (-> & _). auto.
  - destruct (record_frame key (with_game s (set_lboard (the_game s) p v) rs'))
      as (-> & _). cbn [the_game with_game].
    destruct (set_lboard_effect (the_game s) p v Hwf Hp Hz Hv)
      as (W & Et & Es & _).
    rewrite Et, Es. auto.
Qed.

Lemma move_ok (d : direction) (g : game) :
  wf_board (board g) ->
  wf_board (board (move d g)) /\ in_int (turns (move d g)).
Proof.
  intros Hwf. destruct (move_facts d g Hwf) as (_ & Ht & W & _).
  split; [exact W |]. rewrite Ht. apply wrap_range.
Qed.

Lemma main_iter_ok (s : session) :
  session_ok s ->
  fst (main_iter s) <> Aborted /\ session_ok (snd (main_iter s)).
Proof.
  intros Hok. pose proof Hok as [Hwf Hint].
  destruct (Z.eq_dec (lose_game (the_game s)) 0) as [Hl | Hl].
  - rewrite (main_iter_by_key s Hl). cbv zeta.
    destruct (get_input_frame s) as (Eg & Er & _).
    destruct (key_move (fst (get_input s))) as [d |].
    + rewrite Eg.
      destruct (move_ok d (the_game s) Hwf) as [W I].
      destruct (main_spawn_ok (turns (the_game s)) (fst (get_input s))
                  (with_game (snd (get_input s)) (move d (the_game s))
                     (rand (snd (get_input s)))))
        as (E & Ok & _); [split; assumption |].
      rewrite E. split; [discriminate | exact Ok].
    + destruct (fst (get_input s) =? chr "q").
      * cbn [fst snd]. split; [discriminate |]. unfold session_ok. now rewrite Eg.
      * destruct (main_spawn_ok (turns (the_game s)) (fst (get_input s))
                    (snd (get_input s)))
          as (E & Ok & _); [unfold session_ok; now rewrite Eg |].
        rewrite E. split; [discriminate | exact Ok].
  - rewrite (main_iter_lost s Hl). cbn [fst snd]. split; [discriminate | exact Hok].
Qed.

(** ** Playback comes to an end *)

Lemma main_spawn_playfile (last_turn key : Z) (s : session) :
  playfile (snd (main_spawn last_turn key s)) = playfile s.
Proof.
  unfold main_spawn. destruct (negb _); [| reflexivity].
  destruct (place_tile (the_game s) (rand s)) as [[[code |] g] rs]; cbn [snd].
  - now destruct (record_frame key (with_game s g rs)) as (_ & _ & ->).
  - reflexivity.
Qed.

Lemma split_line_cons (c : ascii) (f : string) :
  split_line (String c f) =
  if Ascii.eqb c newline then (String c EmptyString, f)
  else let '(l, rest) := split_line f in (String c l, rest).
Proof. reflexivity. Qed.

Lemma split_line_shorter (c : ascii) (f : string) :
  (String.length (snd (split_line (String c f))) <= String.length f)%nat.
Proof.
  revert c; induction f as [| c' f IH]; intros c; rewrite split_line_cons.
  - destruct (Ascii.eqb c newline); cbn [split_line snd String.length]; lia.
  - destruct (Ascii.eqb c newline); [cbn [snd String.length]; lia |].
    specialize (IH c'). destruct (split_line (String c' f)) as [l rest].
    cbn [snd String.length] in *. lia.
Qed.

Lemma main_iter_playing (s s' : session) (f : string) :
  playfile s = Some f ->
  main_iter s = (Playing, s') ->
  exists rest,
    playfile s' = Some rest /\ (String.length rest < String.length f)%nat.
Proof.
  intros Hf E.
  destruct (Z.eq_dec (lose_game (the_game s)) 0) as [Hl | Hl];
    [| rewrite (main_iter_lost s Hl) in E; discriminate E].
  rewrite (main_iter_by_key s Hl) in E. cbv zeta in E.
  destruct (get_input_playback s f Hf) as (Hk & _ & _ & Hp).
  destruct f as [| c f'].
  - cbn [String.eqb] in Hk. rewrite Hk in E. discriminate E.
  - exists (snd (split_line (String c f'))). split.
    + rewrite <- Hp.
      destruct (key_move (fst (get_input s))) as [d |].
      * apply (f_equal snd) in E. cbn [snd] in E. rewrite <- E.
        now rewrite main_spawn_playfile.
      * destruct (fst (get_input s) =? chr "q"); [discriminate E |].
        apply (f_equal snd) in E. cbn [snd] in E. rewrite <- E.
        now rewrite main_spawn_playfile.
    + pose proof (split_line_shorter c f'). cbn [String.length]. lia.
Qed.

Lemma main_loop_playback (n : nat) :
  forall s f,
    playfile s = Some f ->
    (String.length f < n)%nat ->
    fst (main_loop n s) <> Playing.
Proof.
  induction n as [| n IH]; intros s f Hf Hn; [lia |].
  cbn [main_loop].
  destruct (main_iter s) as [[| | |] s'] eqn:E; cbn [fst]; try discriminate.
  destruct (main_iter_playing s s' f Hf E) as (rest & Hr & Hlen).
  apply (IH s' rest Hr). lia.
Qed.

(** ** The largest tile *)

Lemma max_loop (l : list tile) :
  forall suf pre acc,
    l = pre ++ suf ->
    let r := for_from (length pre) (length suf)
               (fun i ret => if ret >? l !!! i then ret else l !!! i) acc in
    acc <= r /\ Forall (fun x => x <= r) suf /\ (r = acc \/ In r suf).
Proof.
  induction suf as [| x suf IH]; intros pre acc El; cbn [length for_from].
  - cbv zeta. split; [lia |]. split; [constructor | now left].
  - replace (l !!! length pre) with x
      by (subst l; now rewrite list_lookup_total_middle).
    replace (Datatypes.S (length pre)) with (length (pre ++ [x]))
      by (rewrite length_app; cbn; lia).
    specialize (IH (pre ++ [x]) (if acc >? x then acc else x)
                  ltac:(now rewrite <- app_assoc)).
    cbv zeta in *. destruct IH as (Ha & Hf & Hi).
    destruct (Z.gtb_spec acc x).
    + split; [lia |]. split; [constructor; [lia | assumption] |].
      destruct Hi as [-> | Hi]; [now left | right; now right].
    + split; [lia |]. split; [constructor; [lia | assumption] |].
      destruct Hi as [-> | Hi]; [right; now left | right; now right].
Qed.

(** ** Ranks stay ranks *)

Lemma row_pass_ranks (k s : Z) (row : list tile) :
  0 <= k <= 30 ->
  wf_row row ->
  Forall (fun x => 0 <= x <= k) row ->
  Forall (fun x => 0 <= x <= k + 1) (snd (row_pass s 0 row)).
Proof.
  intros Hk H Hr. four_cells row H.
  repeat match goal with
         | H : Forall _ (_ :: _) |- _ => apply Forall_cons in H; destruct H
         end.
  repeat match goal with
         | H : 0 <= ?x <= k |- _ =>
             lazymatch goal with
             | _ : rank_ok x |- _ => fail
             | _ => assert (rank_ok x) by (unfold rank_ok; lia)
             end
         end.
  by_rows_ok; repeat constructor; lia.
Qed.

Lemma slide_left_ranks (k : Z) (row : list tile) :
  0 <= k <= 30 -> wf_row row ->
  Forall (fun x => 0 <= x <= k) row ->
  Forall (fun x => 0 <= x <= k + 1) (slide_left row).
Proof.
  intros Hk H Hr. rewrite <- (row_pass_slide 0 0 row). now apply row_pass_ranks.
Qed.

Lemma move_left_ranks (k : Z) (g : game) :
  0 <= k <= 30 ->
  wf_board (board g) ->
  ranks_within k (board g) ->
  ranks_within (k + 1) (board (move_left g)).
Proof.
  intros Hk Hwf Hr. unfold ranks_within in *. rewrite (move_left_board g Hwf).
  destruct (wf_board_rows _ Hwf) as (r0 & r1 & r2 & r3 & Hb & H0 & H1 & H2 & H3).
  rewrite Hb in *. cbn [map]. rewrite board_rows_app, !Forall_app in *.
  destruct Hr as (K0 & K1 & K2 & K3).
  repeat split; now apply slide_left_ranks.
Qed.

Lemma rotate_board_within (k : Z) (b : list (list tile)) :
  wf_board b -> ranks_within k b -> ranks_within k (rotate_board b).
Proof.
  intros H. board_cells b H. rewrite rotate_board_cells.
  unfold ranks_within. cbn [mjoin list_join app].
  rewrite !Forall_cons. tauto.
Qed.

Lemma rotate_times_within (n : nat) (k : Z) (b : list (list tile)) :
  wf_board b -> ranks_within k b -> ranks_within k (rotate_times n b).
Proof.
  intros H Hr; induction n as [| n IH]; cbn [rotate_times]; [assumption |].
  apply rotate_board_within; [now apply rotate_iter_wf | exact IH].
Qed.

Lemma move_ranks (d : direction) (k : Z) (g : game) :
  0 <= k <= 30 ->
  wf_board (board g) ->
  ranks_within k (board g) ->
  ranks_within (k + 1) (board (move d g)).
Proof.
  intros Hk Hwf Hr. pose proof (turned_wf d g Hwf) as W1.
  rewrite move_eq, rotate_n_board.
  apply rotate_times_within; [now apply move_left_wf |].
  apply move_left_ranks; [assumption | assumption |].
  rewrite turned_eq, rotate_n_board. now apply rotate_times_within.
Qed.

Lemma combine_left_cases (g : game) (row : list tile) :
  wf_row row ->
  (snd (combine_left g row) = 0 \/ snd (combine_left g row) = 1) /\
  (snd (combine_left g row) = 0 <-> fst (combine_left g row) = (g, row)) /\
  (snd (combine_left g row) = 1 -> In 0 (snd (fst (combine_left g row)))).
Proof.
  intros H. four_cells row H. destruct g as [gt gs gb].
  by_rows; (split; [lia |]);
    (split;
     [ split; intros; first [reflexivity | lia | congruence]
     | intros; first [lia | cbn; lia] ]).
Qed.

(** ** The numbers shown *)

Lemma shown_number_value (t : tile) :
  0 <= t <= 30 -> shown_number t = tile_value t.
Proof.
  intros Ht. unfold shown_number, print_tile, tile_value.
  destruct (Z.eqb_spec t 0) as [E | E]; cbn [negb]; [reflexivity |].
  unfold shl. rewrite Z.shiftl_1_l. apply wrap_in_int.
  assert (0 < 2 ^ t) by (apply Z.pow_pos_nonneg; lia).
  assert (2 ^ t <= 2 ^ 30) by (apply Z.pow_le_mono_r; lia).
  unfold in_int, int_min, int_max. lia.
Qed.

Lemma shown_total_value (b : list (list tile)) :
  ranks_within 30 b -> shown_total b = board_total b.
Proof.
  unfold ranks_within, shown_total, board_total.
  induction 1 as [| x l Hx _ IH]; cbn [foldr total]; [reflexivity |].
  now rewrite IH, shown_number_value.
Qed.

Lemma ranks_within_le (k k' : Z) (b : list (list tile)) :
  k <= k' -> ranks_within k b -> ranks_within k' b.
Proof.
  intros Hk Hr. unfold ranks_within in *.
  induction Hr as [| x l Hx _ IH]; constructor; [lia | exact IH].
Qed.

(** ** Sample states *)

Lemma in_int_small (z : Z) : 0 <= z <= 1000000 -> in_int z.
Proof. unfold in_int, int_min, int_max. lia. Qed.

Lemma game_sample_ranks : ranks_ok (board game_sample).
Proof. unfold ranks_ok, rank_ok. cbn. repeat constructor; lia. Qed.

(** * The claims: the calls of [place_tile] in [main] *)





(** Off the paths of [main]: no call of [place_tile] in [main] looks at what
    it returns.  On a 4x4 board that is full, which [main] never hands to
    [place_tile], the call returns -1 and changes nothing, and the spawn
    step and the seeding would go on as after a call that returned 0. *)
Remark main_spawn_full_board (s : session) (last_turn key : Z) :
  wf_board (board (the_game s)) ->
  ~ has_empty (board (the_game s)) ->
  place_tile (the_game s) (rand s) = (Returned (-1), the_game s, rand s) /\
  (last_turn <> turns (the_game s) ->
   main_spawn last_turn key s = (Playing, record key s)) /\
  the_game (record key s) = the_game s /\
  main_seed s = (Playing, s).
Proof.
  intros Hwf Hfull.
  pose proof (place_tile_no_room (the_game s) (rand s) Hwf Hfull) as Hf.
  split; [exact Hf |]. split; [| split].
  - intros Hne. unfold main_spawn.
    destruct (Z.eqb_spec last_turn (turns (the_game s))); [contradiction |].
    cbn [negb]. rewrite Hf, with_game_same. reflexivity.
  - unfold record. now destruct (recfile s).
  - unfold main_seed. rewrite Hf, with_game_same, Hf, with_game_same. reflexivity.
Qed.



(** * Further properties of the program *)

(** X1. [deflate_left] packs a row: the tiles keep their order at the left
    end, the empty cells follow; the returned flag is 0 or 1, and it is 0
    exactly when the row comes back as it was. *)
Theorem deflate_left_compacts (row : list tile) :
  wf_row row ->
  fst (deflate_left row) = packed row /\
  (snd (deflate_left row) = 0 \/ snd (deflate_left row) = 1) /\
  (snd (deflate_left row) = 0 <-> fst (deflate_left row) = row).
Proof.
  intros H. four_cells row H.
  by_rows; cbv [Z.lor Pos.lor];
    (split; [reflexivity |]); (split; [lia |]);
    split; intros; first [reflexivity | lia | congruence].
Qed.

Lemma deflate_left_compacts_witness :
  fst (deflate_left [0; 3; 0; 1]) = packed [0; 3; 0; 1] /\
  (snd (deflate_left [0; 3; 0; 1]) = 0 <-> fst (deflate_left [0; 3; 0; 1]) = [0; 3; 0; 1]).
Proof.
  destruct (deflate_left_compacts [0; 3; 0; 1] eq_refl) as (Hp & _ & Hf).
  split; [exact Hp | exact Hf].
Defined.

(** X2. [deflate_left] is idempotent: on the row it has produced it changes
    nothing and returns 0. *)
Theorem deflate_left_idempotent (row : list tile) :
  wf_row row ->
  deflate_left (fst (deflate_left row)) = (fst (deflate_left row), 0).
Proof.
  intros H. four_cells row H.
  by_rows; reflexivity.
Qed.

Lemma deflate_left_idempotent_witness :
  deflate_left (fst (deflate_left [0; 3; 0; 1])) = (fst (deflate_left [0; 3; 0; 1]), 0).
Proof. apply (deflate_left_idempotent [0; 3; 0; 1]). reflexivity. Defined.

(** X3. [move_left] treats every row on its own: the new board is the old
    one with each row deflated, combined and deflated again, whatever the
    other rows and the score are; and every row it leaves has its tiles
    packed to the left of its empty cells. *)
Theorem move_left_rowwise (g : game) :
  wf_board (board g) ->
  board (move_left g) = map slide_left (board g) /\
  Forall (fun row => packed row = row) (board (move_left g)).
Proof.
  intros Hwf. rewrite (move_left_board g Hwf). split; [reflexivity |].
  destruct (wf_board_rows _ Hwf) as (r0 & r1 & r2 & r3 & -> & H0 & H1 & H2 & H3).
  cbn [map].
  repeat constructor; now apply slide_left_shape.
Qed.

Lemma move_left_rowwise_witness :
  board (move_left game_sample) = map slide_left (board game_sample).
Proof. apply (move_left_rowwise game_sample). exact game_sample_wf. Defined.

(** X4. [move_right] is [move_left] in a mirror: each row is reversed,
    slid to the left and reversed back. *)
Theorem move_right_mirror (g : game) :
  wf_board (board g) ->
  board (move_right g) = map (fun row => rev (slide_left (rev row))) (board g).
Proof. exact (move_right_board g). Qed.

Lemma move_right_mirror_witness :
  board (move_right game_sample)
  = map (fun row => rev (slide_left (rev row))) (board game_sample).
Proof. apply (move_right_mirror game_sample). exact game_sample_wf. Defined.

(** X5. [rotate_clockwise] is a quarter turn: the cell at row [r], column
    [c] of the new board is the cell at row [NCOLS - 1 - c], column [r] of
    the old one. *)
Theorem rotate_clockwise_cell (g : game) (r c : nat) :
  wf_board (board g) -> (r < NROWS)%nat -> (c < NCOLS)%nat ->
  cell (board (rotate_clockwise g)) r c = cell (board g) (NCOLS - 1 - c) r.
Proof.
  intros Hwf Hr Hc. rewrite rotate_clockwise_board.
  now apply rotate_board_cell.
Qed.

Lemma rotate_clockwise_cell_witness :
  cell (board (rotate_clockwise game_sample)) 1 3
  = cell (board game_sample) (NCOLS - 1 - 3) 1.
Proof.
  apply (rotate_clockwise_cell game_sample 1 3);
    [exact game_sample_wf | unfold NROWS; lia | unfold NCOLS, NROWS; lia].
Defined.

(** X6. A move in any direction keeps the sum of the numbers shown on the
    board (the [int] [1 << tile] that [print_tile] writes for a tile,
    nothing for an empty cell), as long as every rank is between 0 and 29:
    a merge then gives a rank of 30 at most, and [1 << 30] is still an
    [int]. *)
Theorem move_keeps_shown_total (d : direction) (g : game) :
  wf_board (board g) ->
  ranks_within 29 (board g) ->
  shown_total (board (move d g)) = shown_total (board g).
Proof.
  intros Hwf Hr.
  pose proof (ranks_within_le 29 30 _ ltac:(lia) Hr) as Hr30.
  pose proof (move_ranks d 29 g ltac:(lia) Hwf Hr) as Hr'.
  rewrite (shown_total_value _ Hr'), (shown_total_value _ Hr30).
  now apply move_total.
Qed.

Lemma move_keeps_shown_total_witness :
  shown_total (board (move Down game_sample)) = shown_total (board game_sample).
Proof.
  apply (move_keeps_shown_total Down game_sample); [exact game_sample_wf |].
  unfold ranks_within. vm_compute.
  repeat constructor; discriminate.
Defined.

(** X7. A move in any direction never lowers the number of empty cells. *)
Theorem move_keeps_room (d : direction) (g : game) :
  wf_board (board g) ->
  count_zeros (lboard g) <= count_zeros (lboard (move d g)).
Proof. exact (move_zeros d g). Qed.

Lemma move_keeps_room_witness :
  count_zeros (lboard game_sample) <= count_zeros (lboard (move Up game_sample)).
Proof. apply (move_keeps_room Up game_sample). exact game_sample_wf. Defined.

(** X8. A move in any direction never lowers the score, and adds at most
    half the sum of the numbers on the board, when the ranks can be raised
    and the score has room for that sum. *)
Theorem move_score_gain (d : direction) (g : game) :
  wf_board (board g) ->
  ranks_ok (board g) ->
  in_int (score g) ->
  score g + board_total (board g) <= int_max ->
  score g <= score (move d g) /\
  2 * (score (move d g) - score g) <= board_total (board g).
Proof. exact (move_gain d g). Qed.

Lemma move_score_gain_witness :
  score game_sample <= score (move Left game_sample) /\
  2 * (score (move Left game_sample) - score game_sample)
  <= board_total (board game_sample).
Proof.
  apply (move_score_gain Left game_sample).
  - exact game_sample_wf.
  - exact game_sample_ranks.
  - apply in_int_small. simpl. lia.
  - vm_compute. discriminate.
Defined.

(** X9. The boards on which [lose_game] returns true are exactly the empty
    board and the full boards that have no two equal neighbours in any row
    or column. *)
Theorem lose_game_terminal (g : game) :
  wf_board (board g) ->
  in_int (turns g) ->
  lose_game g <> 0 <-> empty_board (board g) \/ stuck_board (board g).
Proof.
  intros Hwf Hint.
  rewrite (lose_game_iff_rets g Hwf Hint).
  destruct (wf_board_cells _ Hwf)
    as (a0 & a1 & a2 & a3 & b0 & b1 & b2 & b3 &
        c0 & c1 & c2 & c3 & d0 & d1 & d2 & d3 & Hb).
  rewrite (all_rets_cells g _ _ _ _ _ _ _ _ _ _ _ _ _ _ _ _ Hb), Hb.
  destruct (terminal_cells a0 a1 a2 a3 b0 b1 b2 b3 c0 c1 c2 c3 d0 d1 d2 d3)
    as [Ee Es].
  cbv zeta in Ee, Es. rewrite Ee, Es, !row_still.
  clear. split.
  - intros H.
    repeat match goal with
           | H : _ /\ _ |- _ => destruct H
           end.
    repeat match goal with
           | H : _ \/ _ |- _ =>
               destruct H as [H | H];
               repeat match goal with
                      | H' : _ /\ _ |- _ => destruct H'
                      end;
               try congruence
           end;
      first [left; repeat split; assumption | right; repeat split; assumption].
  - intros [H | H];
      repeat match goal with
             | H' : _ /\ _ |- _ => destruct H'
             end;
      repeat split;
      first [left; repeat split; assumption | right; repeat split; assumption].
Qed.

Lemma lose_game_terminal_witness :
  (lose_game game_stuck <> 0 <->
   empty_board (board game_stuck) \/ stuck_board (board game_stuck)) /\
  (lose_game game_zero <> 0 <->
   empty_board (board game_zero) \/ stuck_board (board game_zero)).
Proof.
  split.
  - apply (lose_game_terminal game_stuck);
      [exact game_stuck_wf | apply in_int_small; simpl; lia].
  - apply (lose_game_terminal game_zero);
      [now apply wf_board_intro | apply in_int_small; simpl; lia].
Defined.

(** X10. When [place_tile] places a tile, the board has exactly one empty
    cell fewer, the sum of the numbers grows by the 2 or the 4 of the new
    tile, and score and turns are as before. *)
Theorem place_tile_adds_one (g : game) (rs : rng) :
  wf_board (board g) ->
  has_empty (board g) ->
  let g' := snd (fst (place_tile g rs)) in
  count_zeros (lboard g') = count_zeros (lboard g) - 1 /\
  (board_total (board g') = board_total (board g) + 2 \/
   board_total (board g') = board_total (board g) + 4) /\
  score g' = score g /\ turns g' = turns g.
Proof.
  intros Hwf He.
  destruct (place_tile_cases g rs Hwf)
    as [[Hn _] | (_ & p & v & Hv & Hp & Hz & Ep)]; [contradiction |].
  rewrite Ep. cbn [fst snd].
  destruct (set_lboard_effect g p v Hwf Hp Hz Hv) as (_ & Et & Es & Ec & Eb).
  cbv zeta. rewrite Ec, Eb.
  split; [reflexivity |]. split; [| auto].
  destruct Hv as [-> | ->]; [left | right]; reflexivity.
Qed.

Lemma place_tile_adds_one_witness :
  count_zeros (lboard (snd (fst (place_tile game_sample rng_sample))))
  = count_zeros (lboard game_sample) - 1.
Proof.
  apply (place_tile_adds_one game_sample rng_sample);
    [exact game_sample_wf | vm_compute; tauto].
Defined.

(** X11. The two [place_tile] calls with which [main] starts put exactly
    two tiles on a board that has room for them (the all-zero board of
    [main] in particular): two empty cells fewer, the sum of the numbers up
    by 4, 6 or 8, score and turns untouched, and the loop is entered. *)
Theorem main_seed_two_tiles (s : session) :
  wf_board (board (the_game s)) ->
  2 <= count_zeros (lboard (the_game s)) ->
  let g := the_game s in
  let g' := the_game (snd (main_seed s)) in
  fst (main_seed s) = Playing /\
  wf_board (board g') /\
  count_zeros (lboard g') = count_zeros (lboard g) - 2 /\
  (board_total (board g') = board_total (board g) + 4 \/
   board_total (board g') = board_total (board g) + 6 \/
   board_total (board g') = board_total (board g) + 8) /\
  score g' = score g /\ turns g' = turns g.
Proof.
  intros Hwf Hc. unfold main_seed.
  destruct (place_tile_cases (the_game s) (rand s) Hwf)
    as [[Hn _] | (_ & p & v & Hv & Hp & Hz & Ep)].
  { exfalso. apply Hn. unfold has_empty. fold (lboard (the_game s)).
    apply count_zeros_pos. lia. }
  rewrite Ep. cbn [the_game rand with_game].
  destruct (set_lboard_effect (the_game s) p v Hwf Hp Hz Hv)
    as (W1 & Et1 & Es1 & Ec1 & Eb1).
  cbv zeta in *.
  destruct (place_tile_cases (set_lboard (the_game s) p v)
              (snd (random (snd (random (rand s))))) W1)
    as [[Hn _] | (_ & p2 & v2 & Hv2 & Hp2 & Hz2 & Ep2)].
  { exfalso. apply Hn. unfold has_empty.
    fold (lboard (set_lboard (the_game s) p v)).
    apply count_zeros_pos. lia. }
  rewrite Ep2. cbn [fst snd the_game with_game].
  destruct (set_lboard_effect _ p2 v2 W1 Hp2 Hz2 Hv2)
    as (W2 & Et2 & Es2 & Ec2 & Eb2).
  cbv zeta in *.
  rewrite Ec2, Eb2, Et2, Es2, Ec1, Eb1, Et1, Es1.
  split; [reflexivity |]. split; [assumption |]. split; [lia |].
  split; [| auto].
  destruct Hv as [-> | ->], Hv2 as [-> | ->];
    change (2 ^ 1) with 2; change (2 ^ 2) with 4; lia.
Qed.

Lemma main_seed_two_tiles_witness :
  fst (main_seed seed_session) = Playing /\
  count_zeros (lboard (the_game (snd (main_seed seed_session)))) = 16 - 2.
Proof.
  assert (W : wf_board (board (the_game seed_session)))
    by (now apply wf_board_intro).
  assert (C : 2 <= count_zeros (lboard (the_game seed_session)))
    by (vm_compute; discriminate).
  destruct (main_seed_two_tiles seed_session W C) as (E & _ & Ec & _).
  split; [exact E | exact Ec].
Defined.

(** X12. The record file follows the effective moves.  After one pass of the
    loop on a game that is not lost, with recording on: either the turn
    counter is as before, and then the game and the record file are as
    before too (unknown key, quit, or a move that changed nothing); or the
    turn counter has changed, and then exactly one line was appended, made
    of the key (as a [char]) and of the score the game now has. *)
Theorem main_iter_records (s : session) (lines : list (Z * Z)) :
  session_ok s ->
  lose_game (the_game s) = 0 ->
  recfile s = Some lines ->
  let key := fst (get_input s) in
  let s' := snd (main_iter s) in
  (turns (the_game s') = turns (the_game s) /\
   the_game s' = the_game s /\ recfile s' = Some lines) \/
  (turns (the_game s') <> turns (the_game s) /\
   recfile s' = Some (lines ++ [(key mod 256, score (the_game s'))])).
Proof.
  intros [Hwf Hint] Hl Hrec key s'. subst key s'.
  rewrite (main_iter_by_key s Hl). cbv zeta.
  destruct (get_input_frame s) as (Eg & Er & Ef).
  set (key := fst (get_input s)) in *. set (s1 := snd (get_input s)) in *.
  destruct (key_move key) as [d |].
  - rewrite Eg.
    destruct (move_facts d (the_game s) Hwf) as (D & Ht & W & Z0 & N1).
    destruct (main_spawn_cases (turns (the_game s)) key
                (with_game s1 (move d (the_game s)) (rand s1)) W)
      as [[E Es] | [(E & Hn & _) | (E & _ & p & v & rs' & Hv & Hp & Hz & Es)]];
      cbn [the_game with_game] in *.
    + left. rewrite Es. cbn [snd the_game recfile with_game].
      assert (R : move_ret d (the_game s) = 0).
      { destruct D as [R | R]; [assumption |].
        rewrite Ht, R in E. symmetry in E. apply wrap_fixed in E; lia. }
      rewrite (move_ret_zero d (the_game s) Hwf Hint R).
      rewrite Ef, Hrec. auto.
    + exfalso. destruct D as [R | R].
      * apply E. rewrite Ht, R, Z.add_0_r. symmetry. now apply wrap_in_int.
      * now destruct (N1 R).
    + right. rewrite Es. cbn [snd]. unfold record.
      cbn [recfile with_game the_game]. rewrite Ef, Hrec.
      cbn [the_game recfile]. split; [| reflexivity].
      intros E'. apply E. symmetry. exact E'.
  - destruct (key =? chr "q").
    + left. cbn [snd]. rewrite Eg, Ef. auto.
    + destruct (main_spawn_cases (turns (the_game s)) key s1
                  ltac:(rewrite Eg; exact Hwf))
        as [[_ Es] | [(E & _) | (E & _)]];
        [| rewrite Eg in E; now elim E | rewrite Eg in E; now elim E].
      left. rewrite Es. cbn [snd]. rewrite Eg, Ef. auto.
Qed.

Lemma main_iter_records_witness :
  recfile (snd (main_iter sample_session))
  = Some ([(chr "w", 4)] ++
          [(chr "a" mod 256, score (the_game (snd (main_iter sample_session))))]).
Proof.
  assert (Ok : session_ok sample_session).
  { split; [exact game_sample_wf | apply in_int_small; simpl; lia]. }
  assert (Hl : lose_game (the_game sample_session) = 0)
    by (vm_compute; reflexivity).
  destruct (main_iter_records sample_session [(chr "w", 4)] Ok Hl eq_refl)
    as [(E & _) | (_ & E)].
  - exfalso. revert E. vm_compute. discriminate.
  - exact E.
Defined.

(** X13. The loop of [main] never runs into the [assert(0)] of
    [place_tile]: from a session of the C types, however many passes are
    made and whatever the keys, the random draws and the files are, the
    program is not aborted, and the board stays a 4x4 array with [turns]
    an [int]. *)
Theorem main_loop_never_aborts (fuel : nat) (s : session) :
  session_ok s ->
  fst (main_loop fuel s) <> Aborted /\ session_ok (snd (main_loop fuel s)).
Proof.
  revert s; induction fuel as [| fuel IH]; intros s Hok; cbn [main_loop].
  - split; [discriminate | exact Hok].
  - destruct (main_iter_ok s Hok) as [Ha Hok'].
    destruct (main_iter s) as [[| | |] s']; cbn [fst snd] in *.
    + now apply IH.
    + split; [discriminate | assumption].
    + split; [discriminate | assumption].
    + now elim Ha.
Qed.

Lemma main_loop_never_aborts_witness :
  fst (main_loop 5 sample_session) <> Aborted.
Proof.
  apply (main_loop_never_aborts 5 sample_session).
  split; [exact game_sample_wf | apply in_int_small; simpl; lia].
Defined.

(** X14. Playback comes to an end: with a playback file of [n] characters,
    the loop has left [Playing] after at most [n + 1] passes, because every
    pass that goes on has consumed a line, and the exhausted file reads as
    ['q']. *)
Theorem playback_terminates (s : session) (f : string) :
  playfile s = Some f ->
  fst (main_loop (Datatypes.S (String.length f)) s) <> Playing.
Proof.
  intros Hf. apply (main_loop_playback _ s f Hf). lia.
Qed.

Lemma playback_terminates_witness :
  fst (main_loop (Datatypes.S (String.length replay_file)) (playback replay_file))
  <> Playing.
Proof. apply (playback_terminates (playback replay_file) replay_file). reflexivity. Defined.

(** X15. [max_tile] returns the largest rank of the sixteen cells, and 0
    when no rank is positive: no cell is above the result, the result is
    not negative, and it is 0 or the rank of some cell. *)
Theorem max_tile_largest (lb : list tile) :
  length lb = (NROWS * NCOLS)%nat ->
  Forall (fun x => x <= max_tile lb) lb /\
  0 <= max_tile lb /\
  (max_tile lb = 0 \/ In (max_tile lb) lb).
Proof.
  intros Hlen. unfold max_tile, for_range. rewrite Nat.sub_0_r, <- Hlen.
  destruct (max_loop lb lb [] 0 eq_refl) as (Ha & Hf & Hi).
  cbn [length] in *. auto.
Qed.

Lemma max_tile_largest_witness :
  Forall (fun x => x <= max_tile (lboard game_sample)) (lboard game_sample) /\
  0 <= max_tile (lboard game_sample).
Proof.
  destruct (max_tile_largest (lboard game_sample) eq_refl) as (Hf & H0 & _).
  split; [exact Hf | exact H0].
Defined.

(** X16. A move keeps ranks ranks: if every rank of the board lies between
    0 and [k] (with [k] at most 30), then after a move in any direction
    every rank lies between 0 and [k + 1]; no tile is raised twice. *)
Theorem move_raises_by_one (d : direction) (k : Z) (g : game) :
  0 <= k <= 30 ->
  wf_board (board g) ->
  ranks_within k (board g) ->
  ranks_within (k + 1) (board (move d g)).
Proof. exact (move_ranks d k g). Qed.

Lemma move_raises_by_one_witness :
  ranks_within (3 + 1) (board (move Right game_sample)).
Proof.
  apply (move_raises_by_one Right 3 game_sample).
  - lia.
  - exact game_sample_wf.
  - unfold ranks_within. cbn. repeat constructor; lia.
Defined.

(** X17. [combine_left] reports what it did, whatever the row holds: the
    flag is 0 or 1; it is 0 exactly when the row and the game (the score)
    come back as they were; and with flag 1 the row has an empty cell. *)
Theorem combine_left_reports (g : game) (row : list tile) :
  wf_row row ->
  (snd (combine_left g row) = 0 \/ snd (combine_left g row) = 1) /\
  (snd (combine_left g row) = 0 <-> fst (combine_left g row) = (g, row)) /\
  (snd (combine_left g row) = 1 -> In 0 (snd (fst (combine_left g row)))).
Proof. exact (combine_left_cases g row). Qed.

Lemma combine_left_reports_witness :
  snd (combine_left game_sample [2; 2; 0; 0]) = 1 /\
  In 0 (snd (fst (combine_left game_sample [2; 2; 0; 0]))).
Proof.
  destruct (combine_left_reports game_sample [2; 2; 0; 0] eq_refl) as (_ & _ & Hz).
  assert (E : snd (combine_left game_sample [2; 2; 0; 0]) = 1) by reflexivity.
  split; [exact E | exact (Hz E)].
Defined.
